(** * Minesweeper: the board engine of [Minesweeper.py]

    A shallow embedding of the [Minesweeper] logic class (the engine that the
    Tkinter shell drives) together with the properties its specification
    states.  Python integers are [Z], the three per-cell sets are [gset]s of
    coordinates, the adjacency grid is a list of rows indexed the way Python
    indexes lists, and methods that may raise return a [res], which keeps the
    engine as the exception left it. *)

From stdpp Require Import gmap list sets.

Local Open Scope Z_scope.
Set Warnings "-clear-no-such-hyp,-level-tolerance".

(** ** Data model *)

(** [Coord = Tuple[int, int]]. *)
Abbreviation Coord := (Z * Z)%type.

(** The frozen dataclass [GameConfig]. *)
Module GameConfig.
Record t : Set := mk { rows : Z; cols : Z; mines : Z }.
End GameConfig.

Abbreviation GameConfig := GameConfig.t.

(** The spec's configuration type: [rows: int>0], [cols: int>0]. *)
Definition wf_config (cfg : GameConfig) : Prop :=
  0 < GameConfig.rows cfg ∧ 0 < GameConfig.cols cfg.

(** [DIFFICULTIES]: the preset table of the shell. *)
Definition DIFFICULTIES (level : Z) : option GameConfig :=
  if bool_decide (level = 1) then Some (GameConfig.mk 8 12 14)
  else if bool_decide (level = 2) then Some (GameConfig.mk 9 14 22)
  else if bool_decide (level = 3) then Some (GameConfig.mk 10 18 38)
  else if bool_decide (level = 4) then Some (GameConfig.mk 12 22 60)
  else if bool_decide (level = 5) then Some (GameConfig.mk 14 26 90)
  else None.

(** The exceptions the engine can meet. *)
Inductive exn : Set := ValueError | IndexError.

(** The fields of a [Minesweeper] object.  [rng] is the section variable
    below and [start_time] only feeds [elapsed_seconds]. *)
Record Minesweeper : Type := Build_Minesweeper {
  cfg : GameConfig;
  mines : gset Coord;
  adj : list (list Z);
  revealed : gset Coord;
  flags : gset Coord;
  _mines_placed : bool;
  game_over : bool;
  won : bool;
}.

(** Outcome of a method that mutates its object: it returns, or it raises and
    leaves the object as it was at the [raise], or (for the work-list loop
    only) the iteration budget of the model ran out. *)
Inductive res (S : Type) : Type :=
  | Ok (s : S)
  | Raise (e : exn) (s : S)
  | OutOfFuel.
Arguments Ok {S} s.
Arguments Raise {S} e s.
Arguments OutOfFuel {S}.

Definition res_bind {S T : Type} (lift : S → T) (m : res S) (k : S → res T) : res T :=
  match m with
  | Ok s => k s
  | Raise e s => Raise e (lift s)
  | OutOfFuel => OutOfFuel
  end.

Notation "'do' x <- m ; k" := (res_bind id m (fun x => k))
  (at level 10, x name, m at level 100, k at level 200).

(** The object a caller holds once the call is over, raised or not. *)
Definition final {S : Type} (m : res S) : option S :=
  match m with
  | Ok s | Raise _ s => Some s
  | OutOfFuel => None
  end.

(** Field assignments. *)
Definition set_mines (s : Minesweeper) (m : gset Coord) : Minesweeper :=
  Build_Minesweeper (cfg s) m (adj s) (revealed s) (flags s)
    (_mines_placed s) (game_over s) (won s).
Definition set_adj (s : Minesweeper) (a : list (list Z)) : Minesweeper :=
  Build_Minesweeper (cfg s) (mines s) a (revealed s) (flags s)
    (_mines_placed s) (game_over s) (won s).
Definition set_revealed (s : Minesweeper) (x : gset Coord) : Minesweeper :=
  Build_Minesweeper (cfg s) (mines s) (adj s) x (flags s)
    (_mines_placed s) (game_over s) (won s).
Definition set_flags (s : Minesweeper) (x : gset Coord) : Minesweeper :=
  Build_Minesweeper (cfg s) (mines s) (adj s) (revealed s) x
    (_mines_placed s) (game_over s) (won s).
Definition set_mines_placed (s : Minesweeper) (b : bool) : Minesweeper :=
  Build_Minesweeper (cfg s) (mines s) (adj s) (revealed s) (flags s)
    b (game_over s) (won s).
Definition set_game_over (s : Minesweeper) (b : bool) : Minesweeper :=
  Build_Minesweeper (cfg s) (mines s) (adj s) (revealed s) (flags s)
    (_mines_placed s) b (won s).
Definition set_won (s : Minesweeper) (b : bool) : Minesweeper :=
  Build_Minesweeper (cfg s) (mines s) (adj s) (revealed s) (flags s)
    (_mines_placed s) (game_over s) b.

(** ** Python lists *)

(** [l[i]] resolves a negative index from the end and raises [IndexError]
    outside [-len(l) <= i < len(l)]. *)
Definition py_norm (n : nat) (i : Z) : option nat :=
  if bool_decide (0 ≤ i < Z.of_nat n) then Some (Z.to_nat i)
  else if bool_decide (- Z.of_nat n ≤ i < 0) then Some (Z.to_nat (Z.of_nat n + i))
  else None.

Definition py_index {A : Type} (l : list A) (i : Z) : option A :=
  py_norm (length l) i ≫= λ k, l !! k.

(** [a[r][c]]. *)
Definition adj_get (a : list (list Z)) (r c : Z) : option Z :=
  py_index a r ≫= λ row, py_index row c.

(** [a[r][c] += 1]. *)
Definition adj_incr (a : list (list Z)) (rc : Coord) : res (list (list Z)) :=
  match py_norm (length a) rc.1 with
  | None => Raise IndexError a
  | Some i =>
      match a !! i with
      | None => Raise IndexError a
      | Some row =>
          match py_norm (length row) rc.2 with
          | None => Raise IndexError a
          | Some j =>
              match row !! j with
              | None => Raise IndexError a
              | Some v => Ok (<[i := <[j := v + 1]> row]> a)
              end
          end
      end
  end.

(** A [for] loop whose body may raise. *)
Fixpoint for_each {A S : Type} (body : S → A → res S) (l : list A) (s : S) : res S :=
  match l with
  | [] => Ok s
  | x :: l' =>
      match body s x with
      | Ok s' => for_each body l' s'
      | other => other
      end
  end.

(** [[[0] * cols for _ in range(rows)]]: the rows are distinct lists. *)
Definition zero_grid (cfg : GameConfig) : list (list Z) :=
  replicate (Z.to_nat (GameConfig.rows cfg))
    (replicate (Z.to_nat (GameConfig.cols cfg)) 0).

(** ** The engine *)

(** [random.Random(seed)]: what the engine uses of it is one call of
    [sample], whose contract is to return [k] elements taken at distinct
    positions of the population. *)
Record Rng : Type := Build_Rng {
  rng_sample : list Coord → nat → list Coord;
  rng_sample_spec : ∀ (population : list Coord) (k : nat),
    (k ≤ length population)%nat →
    length (rng_sample population k) = k ∧
    ∃ rest, population ≡ₚ rng_sample population k ++ rest;
}.

(** [rng.sample(population, k)] raises [ValueError] unless
    [0 <= k <= len(population)]. *)
Definition sample (rng : Rng) (population : list Coord) (k : Z) : option (list Coord) :=
  if bool_decide (0 ≤ k ≤ Z.of_nat (length population))
  then Some (rng_sample rng population (Z.to_nat k))
  else None.

(** [Minesweeper.__init__]. *)
Definition __init__ (c : GameConfig) : Minesweeper + exn :=
  if bool_decide (GameConfig.mines c >= GameConfig.rows c * GameConfig.cols c)
  then inr ValueError
  else inl (Build_Minesweeper c ∅ (zero_grid c) ∅ ∅ false false false).

(** [Minesweeper.in_bounds]. *)
Definition in_bounds (c : GameConfig) (r k : Z) : bool :=
  bool_decide (0 ≤ r < GameConfig.rows c) && bool_decide (0 ≤ k < GameConfig.cols c).

(** [Minesweeper.neighbors]: the two nested [for] loops over [(-1, 0, 1)],
    in their order. *)
Definition neighbors (c : GameConfig) (r k : Z) : list Coord :=
  dr ← [-1; 0; 1];
  dc ← [-1; 0; 1];
  if bool_decide (dr = 0 ∧ dc = 0) then []
  else if in_bounds c (r + dr) (k + dc) then [(r + dr, k + dc)]
  else [].

(** [(r, c) for r in range(rows) for c in range(cols)]. *)
Definition all_cells (c : GameConfig) : list Coord :=
  r ← seqZ 0 (GameConfig.rows c);
  k ← seqZ 0 (GameConfig.cols c);
  [(r, k)].

(** [Minesweeper._recompute_adjacency]: a fresh grid is assigned to
    [self.adj], then every neighbour of every mine is incremented in place. *)
Definition _recompute_adjacency (s : Minesweeper) : res Minesweeper :=
  res_bind (set_adj s)
    (for_each
       (λ a m, for_each adj_incr (neighbors (cfg s) m.1 m.2) a)
       (elements (mines s))
       (zero_grid (cfg s)))
    (λ a, Ok (set_adj s a)).

(** [Minesweeper.toggle_flag]; [self.flags.remove(cell)] runs only on a
    member, so it cannot raise. *)
Definition toggle_flag (s : Minesweeper) (r c : Z) : Minesweeper :=
  if game_over s || negb (in_bounds (cfg s) r c) then s
  else if bool_decide ((r, c) ∈ revealed s) then s
  else if bool_decide ((r, c) ∈ flags s) then set_flags s (flags s ∖ {[(r, c)]})
  else set_flags s ({[(r, c)]} ∪ flags s).

(** The test at the head of the body of the [while] loop. *)
Definition flood_skips (s : Minesweeper) (cell : Coord) : bool :=
  bool_decide (cell ∈ revealed s) || bool_decide (cell ∈ flags s).

(** The neighbours the body appends; the stack is a list whose head is the
    top, so [stack.append(nb)] is a cons. *)
Definition flood_push (s : Minesweeper) (stack : list Coord) (cell : Coord) : list Coord :=
  fold_left
    (λ stk nb,
       if bool_decide (nb ∉ revealed s) && bool_decide (nb ∉ mines s)
          && bool_decide (nb ∉ flags s)
       then nb :: stk else stk)
    (neighbors (cfg s) cell.1 cell.2) stack.

(** One turn of the [while] loop, [cell] being what [stack.pop()] gave and
    [rest] what it left. *)
Definition flood_body (s : Minesweeper) (cell : Coord) (rest : list Coord)
  : res (Minesweeper * list Coord) :=
  if flood_skips s cell then Ok (s, rest)
  else
    let s1 := set_revealed s ({[cell]} ∪ revealed s) in
    match adj_get (adj s1) cell.1 cell.2 with
    | None => Raise IndexError (s1, rest)
    | Some a =>
        if bool_decide (a = 0) then Ok (s1, flood_push s1 rest cell)
        else Ok (s1, rest)
    end.

(** The [while stack:] loop, with a budget of turns. *)
Fixpoint flood_loop (fuel : nat) (s : Minesweeper) (stack : list Coord) : res Minesweeper :=
  match fuel with
  | O => OutOfFuel
  | S fuel' =>
      match stack with
      | [] => Ok s
      | cell :: rest =>
          res_bind fst (flood_body s cell rest)
            (λ st, flood_loop fuel' st.1 st.2)
      end
  end.

(** The cells on which [self.revealed.add(cell)] runs, in order. *)
Fixpoint flood_marks (fuel : nat) (s : Minesweeper) (stack : list Coord) : list Coord :=
  match fuel with
  | O => []
  | S fuel' =>
      match stack with
      | [] => []
      | cell :: rest =>
          (if flood_skips s cell then [] else [cell]) ++
          match flood_body s cell rest with
          | Ok st => flood_marks fuel' st.1 st.2
          | _ => []
          end
      end
  end.

(** Turns of the loop that are enough on a board of this size, whatever the
    starting cell (lemma [_flood_reveal_total]). *)
Definition flood_fuel (c : GameConfig) : nat :=
  (8 * (Z.to_nat (GameConfig.rows c) * Z.to_nat (GameConfig.cols c)) + 10)%nat.

(** [Minesweeper._flood_reveal]. *)
Definition _flood_reveal (s : Minesweeper) (start : Coord) : res Minesweeper :=
  flood_loop (flood_fuel (cfg s)) s [start].

(** [Minesweeper._check_win]. *)
Definition _check_win (s : Minesweeper) : Minesweeper :=
  let total := GameConfig.rows (cfg s) * GameConfig.cols (cfg s) in
  if bool_decide (Z.of_nat (size (revealed s)) = total - GameConfig.mines (cfg s))
  then set_won (set_game_over s true) true
  else s.

(** The two commands of the shell. *)
Inductive op : Set :=
  | Reveal (r c : Z)
  | ToggleFlag (r c : Z).

Section Engine.

Variable rng : Rng.

(** [Minesweeper._place_mines_first_click_safe]. *)
Definition _place_mines_first_click_safe (s : Minesweeper) (safe : Coord) : res Minesweeper :=
  let forbidden : gset Coord :=
    list_to_set (neighbors (cfg s) safe.1 safe.2) ∪ {[safe]} in
  let candidates := filter (λ p, p ∉ forbidden) (all_cells (cfg s)) in
  let candidates :=
    if bool_decide (Z.of_nat (length candidates) < GameConfig.mines (cfg s))
    then filter (λ p, p ≠ safe) (all_cells (cfg s))
    else candidates in
  match sample rng candidates (GameConfig.mines (cfg s)) with
  | None => Raise ValueError s
  | Some picked =>
      do s1 <- _recompute_adjacency (set_mines s (list_to_set picked));
      Ok (set_mines_placed s1 true)
  end.

(** [Minesweeper.reveal]. *)
Definition reveal (s : Minesweeper) (r c : Z) : res Minesweeper :=
  if game_over s || negb (in_bounds (cfg s) r c) then Ok s
  else
    let cell := (r, c) in
    if bool_decide (cell ∈ flags s) || bool_decide (cell ∈ revealed s) then Ok s
    else
      do s1 <- (if negb (_mines_placed s)
                then _place_mines_first_click_safe s cell else Ok s);
      if bool_decide (cell ∈ mines s1)
      then Ok (set_revealed (set_won (set_game_over s1 true) false)
                 ({[cell]} ∪ revealed s1))
      else
        do s2 <- _flood_reveal s1 cell;
        Ok (_check_win s2).

(** One command; the caller keeps the object also when the call raised. *)
Definition step (s : Minesweeper) (o : op) : option Minesweeper :=
  match o with
  | Reveal r c => final (reveal s r c)
  | ToggleFlag r c => Some (toggle_flag s r c)
  end.

(** The states of an engine: what a successful construction returns and what
    commands make of it. *)
Inductive reachable : Minesweeper → Prop :=
  | reachable_init c s : __init__ c = inl s → reachable s
  | reachable_step s o s' : reachable s → step s o = Some s' → reachable s'.

(** [steps s s']: some sequence of commands leads from [s] to [s']. *)
Inductive steps : Minesweeper → Minesweeper → Prop :=
  | steps_refl s : steps s s
  | steps_step s o s' s'' : step s o = Some s' → steps s' s'' → steps s s''.

End Engine.

(** A sequence of calls on an engine, and a whole game from its
    configuration. *)
Fixpoint run (rng : Rng) (s : Minesweeper) (ops : list op) : option Minesweeper :=
  match ops with
  | [] => Some s
  | o :: ops' =>
      match step rng s o with
      | Some s' => run rng s' ops'
      | None => None
      end
  end.

Definition play (rng : Rng) (c : GameConfig) (ops : list op) : option Minesweeper :=
  match __init__ c with
  | inl s => run rng s ops
  | inr _ => None
  end.

(** ** The vocabulary of the specification *)

(** Chebyshev distance 1. *)
Definition chebyshev1 (p q : Coord) : Prop :=
  Z.max (Z.abs (p.1 - q.1)) (Z.abs (p.2 - q.2)) = 1.

#[global] Instance chebyshev1_dec (p q : Coord) : Decision (chebyshev1 p q) :=
  Z.eq_dec _ _.

(** The adjacency count recomputed from the mine set alone: the mines at
    Chebyshev distance 1 of [(r, c)]. *)
Definition mine_count (s : Minesweeper) (r c : Z) : Z :=
  Z.of_nat (size (filter (λ m, chebyshev1 m (r, c)) (mines s))).

(** The cells of the board, as a set. *)
Definition board (c : GameConfig) : gset Coord := list_to_set (all_cells c).

(** The two terminal states of the spec's state machine. *)
Definition is_lost (s : Minesweeper) : Prop := game_over s = true ∧ won s = false.
Definition is_won (s : Minesweeper) : Prop := game_over s = true ∧ won s = true.

(** The eight coordinates around [(r, k)], in the order [neighbors] scans
    them. *)
Definition around (r k : Z) : list Coord :=
  [(r + -1, k + -1); (r + -1, k + 0); (r + -1, k + 1);
   (r + 0, k + -1); (r + 0, k + 1);
   (r + 1, k + -1); (r + 1, k + 0); (r + 1, k + 1)].

(** The grid has [rows] rows of [cols] entries. *)
Definition grid_shape (c : GameConfig) (a : list (list Z)) : Prop :=
  length a = Z.to_nat (GameConfig.rows c) ∧
  Forall (λ row, length row = Z.to_nat (GameConfig.cols c)) a.

(** The entry of the grid at [p], [0] where [a[r][c]] would raise. *)
Definition cell_val (a : list (list Z)) (p : Coord) : Z :=
  default 0 (adj_get a p.1 p.2).

(** How often [q] occurs in [l]. *)
Definition occ (q : Coord) (l : list Coord) : Z :=
  Z.of_nat (length (filter (λ x, x = q) l)).

(** What the [for nb in self.neighbors(r, c)] loop leaves on the stack. *)
Definition pushed (s : Minesweeper) (cell : Coord) : list Coord :=
  filter (λ nb, nb ∉ revealed s ∧ nb ∉ mines s ∧ nb ∉ flags s)
    (neighbors (cfg s) cell.1 cell.2).

(** The measure that bounds the turns left. *)
Definition flood_measure (s : Minesweeper) (stack : list Coord) : nat :=
  (length stack + 8 * size (board (cfg s) ∖ revealed s))%nat.

(** What a run of the loop does to the engine: [X] is the final revealed
    set and [marks] the cells marked on the way. *)
Record flood_post (s : Minesweeper) (stack : list Coord)
    (X : gset Coord) (marks : list Coord) : Prop := {
  fp_marks : X = revealed s ∪ list_to_set marks;
  fp_NoDup : NoDup marks;
  fp_fresh : ∀ p, p ∈ marks → p ∉ revealed s ∧ p ∉ flags s ∧
                               in_bounds (cfg s) p.1 p.2 = true;
  fp_safe : (∀ p, p ∈ stack → p ∉ mines s) → ∀ p, p ∈ marks → p ∉ mines s;
  fp_stack : ∀ p, p ∈ stack → p ∈ X ∨ p ∈ flags s;
}.

(** The invariant of the reachable states. *)
Record inv (s : Minesweeper) : Prop := {
  inv_config :
    GameConfig.mines (cfg s) < GameConfig.rows (cfg s) * GameConfig.cols (cfg s);
  inv_shape : grid_shape (cfg s) (adj s);
  inv_mines : mines s ⊆ board (cfg s);
  inv_revealed : revealed s ⊆ board (cfg s);
  inv_flags : flags s ⊆ board (cfg s);
  inv_disjoint : revealed s ## flags s;
  inv_safe : game_over s = false → revealed s ## mines s;
  inv_unplaced :
    _mines_placed s = false → mines s = ∅ ∧ revealed s = ∅ ∧ game_over s = false;
  inv_placed :
    _mines_placed s = true →
    Z.of_nat (size (mines s)) = GameConfig.mines (cfg s);
  inv_adj : ∀ r k, in_bounds (cfg s) r k = true →
                   adj_get (adj s) r k = Some (mine_count s r k);
  inv_won :
    won s = true →
    game_over s = true ∧
    Z.of_nat (size (revealed s))
    = GameConfig.rows (cfg s) * GameConfig.cols (cfg s) - GameConfig.mines (cfg s);
  inv_live :
    game_over s = false →
    Z.of_nat (size (revealed s))
    ≠ GameConfig.rows (cfg s) * GameConfig.cols (cfg s) - GameConfig.mines (cfg s);
}.

(** The ways a call of [reveal] can go. *)
Inductive reveal_case (rng : Rng) (s : Minesweeper) (r c : Z) : res Minesweeper → Prop :=
  | reveal_noop :
      game_over s = true ∨ in_bounds (cfg s) r c = false ∨
      (r, c) ∈ flags s ∨ (r, c) ∈ revealed s →
      reveal_case rng s r c (Ok s)
  | reveal_raise :
      game_over s = false → _mines_placed s = false →
      GameConfig.mines (cfg s) < 0 →
      reveal_case rng s r c (Raise ValueError s)
  | reveal_lose :
      game_over s = false → _mines_placed s = true →
      (r, c) ∈ mines s → (r, c) ∉ flags s → (r, c) ∉ revealed s →
      reveal_case rng s r c
        (Ok (set_revealed (set_won (set_game_over s true) false)
               ({[(r, c)]} ∪ revealed s)))
  | reveal_flood s1 X :
      game_over s = false → in_bounds (cfg s) r c = true →
      (r, c) ∉ flags s → (r, c) ∉ revealed s →
      (if _mines_placed s then s1 = s
       else 0 ≤ GameConfig.mines (cfg s) ∧
            _place_mines_first_click_safe rng s (r, c) = Ok s1) →
      inv s1 → _mines_placed s1 = true → (r, c) ∉ mines s1 →
      cfg s1 = cfg s → revealed s1 = revealed s → flags s1 = flags s →
      game_over s1 = false → won s1 = won s →
      _flood_reveal s1 (r, c) = Ok (set_revealed s1 X) →
      flood_post s1 [(r, c)] X (flood_marks (flood_fuel (cfg s1)) s1 [(r, c)]) →
      reveal_case rng s r c (Ok (_check_win (set_revealed s1 X))).

(** What the reachable states keep besides [inv]. *)
Record inv_terminal (s : Minesweeper) : Prop := {
  it_wf : _mines_placed s = true → wf_config (cfg s);
  it_opened : _mines_placed s = true → revealed s ≠ ∅;
  it_won : won s = true → revealed s ## mines s;
  it_lost :
    game_over s = true → won s = false →
    ∃ p, p ∈ mines s ∧ p ∈ revealed s ∧ (revealed s ∖ {[p]}) ## mines s ∧
         Z.of_nat (size (revealed s ∖ {[p]}))
         ≠ GameConfig.rows (cfg s) * GameConfig.cols (cfg s) - GameConfig.mines (cfg s);
}.

(** ** Samplers and sample games *)

(** Two samplers: the first [k] of the population, and a draw-and-remove
    selection driven by a seed. *)
Definition take_sample (population : list Coord) (k : nat) : list Coord :=
  take k population.

Fixpoint draw_sample (seed : nat → nat) (pool : list Coord) (k : nat) : list Coord :=
  match k with
  | O => []
  | S k' =>
      let j := (seed k' `mod` length pool)%nat in
      match pool !! j with
      | Some x => x :: draw_sample seed (delete j pool) k'
      | None => []
      end
  end.

(** The seed that sends the only mine of a 4 by 4 board to [(3, 3)] when the
    first click is [(0, 0)], and the one that mines [(0, 2)] and [(0, 4)] on a
    1 by 5 board. *)
Definition seed_corner : nat → nat := λ _, 11%nat.
Definition seed_row : nat → nat := λ i, match i with O => 1%nat | _ => 0%nat end.

Definition cfg_4x4 : GameConfig := GameConfig.mk 4 4 1.
Definition cfg_1x5 : GameConfig := GameConfig.mk 1 5 2.
Definition cfg_negative : GameConfig := GameConfig.mk 2 2 (-1).

(** The 1 by 5 game after the opening click, and after a mine was hit. *)
Definition row_opened : Minesweeper :=
  Build_Minesweeper cfg_1x5 {[(0, 2); (0, 4)]} [[0; 1; 0; 2; 0]]
    {[(0, 0); (0, 1)]} ∅ true false false.
Definition row_lost : Minesweeper :=
  Build_Minesweeper cfg_1x5 {[(0, 2); (0, 4)]} [[0; 1; 0; 2; 0]]
    {[(0, 0); (0, 1); (0, 2)]} ∅ true true false.

Definition row_flagged : Minesweeper :=
  Build_Minesweeper cfg_1x5 {[(0, 2); (0, 4)]} [[0; 1; 0; 2; 0]]
    {[(0, 0); (0, 1)]} {[(0, 2)]} true false false.

(** The 4 by 4 game as [__init__] returns it, and once the click on [(0, 0)]
    has won it under [seed_corner]. *)
Definition fresh_4x4 : Minesweeper :=
  Build_Minesweeper cfg_4x4 ∅ (zero_grid cfg_4x4) ∅ ∅ false false false.
Definition won_4x4 : Minesweeper :=
  Build_Minesweeper cfg_4x4 {[(3, 3)]}
    [[0; 0; 0; 0]; [0; 0; 0; 0]; [0; 0; 1; 1]; [0; 0; 1; 0]]
    (list_to_set
       [(0, 0); (0, 1); (0, 2); (0, 3); (1, 0); (1, 1); (1, 2); (1, 3);
        (2, 0); (2, 1); (2, 2); (2, 3); (3, 0); (3, 1); (3, 2)])
    ∅ true true true.

(** * Lemmas *)

(** ** Bounds, neighbours and the cells of the board *)

Lemma in_bounds_spec c r k :
  in_bounds c r k = true ↔ 0 ≤ r < GameConfig.rows c ∧ 0 ≤ k < GameConfig.cols c.
Proof.
  unfold in_bounds. rewrite andb_true_iff, !bool_decide_eq_true. tauto.
Qed.

Lemma in_bounds_wf c r k : in_bounds c r k = true → wf_config c.
Proof. rewrite in_bounds_spec. unfold wf_config. lia. Qed.

Lemma neighbors_around c r k :
  neighbors c r k = filter (λ p, in_bounds c p.1 p.2 = true) (around r k).
Proof.
  assert (Hstep : ∀ (p : Coord) l,
    (if in_bounds c p.1 p.2 then [p] else []) ++ filter (λ p, in_bounds c p.1 p.2 = true) l
    = filter (λ p, in_bounds c p.1 p.2 = true) (p :: l)).
  { intros p l. rewrite filter_cons. destruct (in_bounds c p.1 p.2) eqn:E.
    - rewrite decide_True by done. done.
    - rewrite decide_False by done. done. }
  unfold neighbors, around. cbn -[in_bounds Z.add filter].
  rewrite !app_nil_r, <- !app_assoc.
  rewrite <- !(Hstep (_, _)). cbn -[in_bounds Z.add]. by rewrite !app_nil_r.
Qed.

Lemma NoDup_around r k : NoDup (around r k).
Proof.
  unfold around. repeat (apply NoDup_cons; split;
    [rewrite ?elem_of_cons, elem_of_nil; intros H; decompose [or] H;
       try done; simplify_eq; lia |]).
  apply NoDup_nil_2.
Qed.

Lemma elem_of_around p r k :
  p ∈ around r k ↔ chebyshev1 p (r, k).
Proof.
  destruct p as [a b]. unfold around, chebyshev1. cbn.
  rewrite !elem_of_cons, elem_of_nil. split.
  - intros H. decompose [or] H; try done; simplify_eq; lia.
  - intros H.
    assert (a = r + -1 ∨ a = r + 0 ∨ a = r + 1) as Ha by lia.
    assert (b = k + -1 ∨ b = k + 0 ∨ b = k + 1) as Hb by lia.
    destruct Ha as [-> | [-> | ->]], Hb as [-> | [-> | ->]]; try tauto.
    lia.
Qed.

Lemma elem_of_neighbors c p r k :
  p ∈ neighbors c r k ↔ in_bounds c p.1 p.2 = true ∧ chebyshev1 p (r, k).
Proof. by rewrite neighbors_around, list_elem_of_filter, elem_of_around. Qed.

Lemma NoDup_neighbors c r k : NoDup (neighbors c r k).
Proof. rewrite neighbors_around. apply NoDup_filter, NoDup_around. Qed.

Lemma length_neighbors c r k : (length (neighbors c r k) ≤ 8)%nat.
Proof. rewrite neighbors_around. apply (length_filter _ (around r k)). Qed.

Lemma neighbors_sym c p q :
  in_bounds c p.1 p.2 = true → in_bounds c q.1 q.2 = true →
  p ∈ neighbors c q.1 q.2 ↔ q ∈ neighbors c p.1 p.2.
Proof.
  intros Hp Hq. rewrite !elem_of_neighbors. unfold chebyshev1. cbn.
  split; intros [_ H]; split; try done; lia.
Qed.

Lemma neighbors_not_self c r k : (r, k) ∉ neighbors c r k.
Proof. rewrite elem_of_neighbors. unfold chebyshev1. cbn. lia. Qed.

Lemma elem_of_all_cells c p :
  p ∈ all_cells c ↔ in_bounds c p.1 p.2 = true.
Proof.
  unfold all_cells. rewrite in_bounds_spec, list_elem_of_bind. split.
  - intros (r & Hk & Hr). apply list_elem_of_bind in Hk as (k & Hp & Hk).
    apply list_elem_of_singleton in Hp as ->.
    apply elem_of_seqZ in Hr, Hk. cbn. lia.
  - intros [Hr Hk]. exists p.1. split; [| apply elem_of_seqZ; lia].
    apply list_elem_of_bind. exists p.2. split; [| apply elem_of_seqZ; lia].
    destruct p. apply list_elem_of_singleton. done.
Qed.

Lemma NoDup_all_cells c : NoDup (all_cells c).
Proof.
  unfold all_cells. apply NoDup_bind.
  - intros r1 r2 p _ _ H1 H2.
    apply list_elem_of_bind in H1 as (k1 & H1 & _), H2 as (k2 & H2 & _).
    apply list_elem_of_singleton in H1, H2. congruence.
  - intros r _. apply NoDup_bind.
    + intros k1 k2 p _ _ H1 H2. apply list_elem_of_singleton in H1, H2. congruence.
    + intros. apply NoDup_singleton.
    + apply NoDup_seqZ.
  - apply NoDup_seqZ.
Qed.

Lemma length_all_cells c :
  length (all_cells c) = (Z.to_nat (GameConfig.rows c) * Z.to_nat (GameConfig.cols c))%nat.
Proof.
  unfold all_cells.
  assert (Hin : ∀ (r : Z) (l : list Z), length (l ≫= λ k, [(r, k)]) = length l).
  { intros r l. induction l as [| k l IH]; [done |].
    rewrite bind_cons. cbn. by rewrite IH. }
  rewrite <- (length_seqZ 0 (GameConfig.rows c)), <- (length_seqZ 0 (GameConfig.cols c)).
  induction (seqZ 0 (GameConfig.rows c)) as [| r l IH]; [done |].
  rewrite bind_cons, length_app, Hin, IH. cbn. lia.
Qed.

Lemma elem_of_board c p : p ∈ board c ↔ in_bounds c p.1 p.2 = true.
Proof. unfold board. by rewrite elem_of_list_to_set, elem_of_all_cells. Qed.

Lemma size_board c :
  size (board c) = (Z.to_nat (GameConfig.rows c) * Z.to_nat (GameConfig.cols c))%nat.
Proof.
  unfold board. rewrite size_list_to_set by apply NoDup_all_cells.
  apply length_all_cells.
Qed.

(** ** The adjacency grid *)

Lemma py_norm_nonneg n i : 0 ≤ i < Z.of_nat n → py_norm n i = Some (Z.to_nat i).
Proof. intros H. unfold py_norm. by rewrite bool_decide_eq_true_2. Qed.

Lemma grid_shape_zero c : grid_shape c (zero_grid c).
Proof.
  unfold grid_shape, zero_grid. split.
  - apply length_replicate.
  - apply Forall_replicate. apply length_replicate.
Qed.

Lemma grid_shape_row c a r k :
  grid_shape c a → in_bounds c r k = true →
  ∃ row, a !! Z.to_nat r = Some row ∧ length row = Z.to_nat (GameConfig.cols c) ∧
         py_norm (length a) r = Some (Z.to_nat r) ∧
         py_norm (length row) k = Some (Z.to_nat k) ∧
         is_Some (row !! Z.to_nat k).
Proof.
  intros [Hlen Hrows] [Hr Hk]%in_bounds_spec.
  destruct (lookup_lt_is_Some_2 a (Z.to_nat r)) as [row Hrow]; [lia |].
  exists row. rewrite Forall_lookup in Hrows. pose proof (Hrows _ _ Hrow) as Hl.
  split_and!; [done | done | apply py_norm_nonneg; lia | apply py_norm_nonneg; lia |].
  apply lookup_lt_is_Some_2. lia.
Qed.

Lemma cell_val_lookup c a q row w :
  grid_shape c a → in_bounds c q.1 q.2 = true →
  a !! Z.to_nat q.1 = Some row → row !! Z.to_nat q.2 = Some w →
  adj_get a q.1 q.2 = Some w ∧ cell_val a q = w.
Proof.
  intros Hs Hb Hrow Hw.
  destruct (grid_shape_row c a _ _ Hs Hb) as (row' & Hrow' & _ & Hn & Hm & _).
  simplify_eq. unfold cell_val, adj_get, py_index. rewrite Hn. cbn. rewrite Hrow. cbn.
  rewrite Hm. cbn. by rewrite Hw.
Qed.

Lemma adj_get_shape c a r k :
  grid_shape c a → in_bounds c r k = true →
  adj_get a r k = Some (cell_val a (r, k)).
Proof.
  intros Hs Hb. destruct (grid_shape_row c a r k Hs Hb) as (row & Hrow & _ & _ & _ & [v Hv]).
  destruct (cell_val_lookup c a (r, k) row v) as [E1 E2]; [done .. |].
  cbn in E1. by rewrite E1, E2.
Qed.

Lemma zero_grid_val c p : in_bounds c p.1 p.2 = true → cell_val (zero_grid c) p = 0.
Proof.
  intros Hb.
  destruct (grid_shape_row c _ _ _ (grid_shape_zero c) Hb) as (row & Hrow & _ & Hn & Hm & [v Hv]).
  destruct (cell_val_lookup c _ p _ _ (grid_shape_zero c) Hb Hrow Hv) as [_ ->].
  unfold zero_grid in Hrow. apply lookup_replicate in Hrow as [-> _].
  by apply lookup_replicate in Hv as [-> _].
Qed.

Lemma occ_nil q : occ q [] = 0.
Proof. done. Qed.

Lemma occ_cons q x l :
  occ q (x :: l) = (if decide (x = q) then 1 else 0) + occ q l.
Proof.
  unfold occ. rewrite filter_cons. destruct (decide (x = q)); cbn [length]; lia.
Qed.

Lemma occ_not_in q l : q ∉ l → occ q l = 0.
Proof.
  induction l as [| x l IH]; [done |]. rewrite not_elem_of_cons. intros [Hne Hnin].
  rewrite occ_cons, IH by done. by rewrite decide_False.
Qed.

Lemma occ_NoDup q l : NoDup l → occ q l = if decide (q ∈ l) then 1 else 0.
Proof.
  induction 1 as [| x l Hx Hnd IH]; [done |].
  rewrite occ_cons. destruct (decide (x = q)) as [-> | Hne].
  - rewrite occ_not_in by done. rewrite decide_True by left. done.
  - rewrite IH. destruct (decide (q ∈ l)).
    + rewrite decide_True by (by right). done.
    + rewrite decide_False; [done |]. by intros [-> | ?]%elem_of_cons.
Qed.

Lemma adj_incr_spec c a p :
  grid_shape c a → in_bounds c p.1 p.2 = true →
  ∃ a', adj_incr a p = Ok a' ∧ grid_shape c a' ∧
        ∀ q, in_bounds c q.1 q.2 = true →
             cell_val a' q = cell_val a q + (if decide (p = q) then 1 else 0).
Proof.
  intros Hs Hb.
  destruct (grid_shape_row c a _ _ Hs Hb) as (row & Hrow & Hl & Hn & Hm & [v Hv]).
  unfold adj_incr. rewrite Hn, Hrow, Hm, Hv. eexists. split; [done |].
  assert (Hs' : grid_shape c (<[Z.to_nat p.1 := <[Z.to_nat p.2 := v + 1]> row]> a)).
  { destruct Hs as [Hlen Hrows]. split; [by rewrite length_insert |].
    apply Forall_insert; [done |]. by rewrite length_insert. }
  split; [done |]. intros q Hq.
  destruct (grid_shape_row c a _ _ Hs Hq) as (rowq & Hrowq & Hlq & _ & _ & [w Hw]).
  destruct (grid_shape_row c _ _ _ Hs' Hq) as (rowq' & Hrowq' & Hlq' & _ & _ & [w' Hw']).
  destruct (cell_val_lookup c _ q _ _ Hs Hq Hrowq Hw) as [_ ->].
  destruct (cell_val_lookup c _ q _ _ Hs' Hq Hrowq' Hw') as [_ ->].
  apply in_bounds_spec in Hb, Hq.
  destruct (decide (Z.to_nat p.1 = Z.to_nat q.1)) as [E1 | N1].
  - rewrite E1 in Hrowq'. rewrite list_lookup_insert_eq in Hrowq'
      by (apply lookup_lt_is_Some; eauto).
    injection Hrowq' as <-. rewrite E1 in Hrow. simplify_eq.
    destruct (decide (Z.to_nat p.2 = Z.to_nat q.2)) as [E2 | N2].
    + rewrite E2 in Hw'. rewrite list_lookup_insert_eq in Hw'
        by (apply lookup_lt_is_Some; eauto).
      rewrite E2 in Hv. simplify_eq.
      rewrite decide_True; [lia |]. destruct p, q; cbn in *. f_equal; lia.
    + rewrite list_lookup_insert_ne in Hw' by done. simplify_eq.
      rewrite decide_False; [lia |]. intros ->. done.
  - rewrite list_lookup_insert_ne in Hrowq' by done. simplify_eq.
    rewrite decide_False; [lia |]. intros ->. done.
Qed.

Lemma for_each_adj_incr c l : ∀ a,
  grid_shape c a → Forall (λ p, in_bounds c p.1 p.2 = true) l →
  ∃ a', for_each adj_incr l a = Ok a' ∧ grid_shape c a' ∧
        ∀ q, in_bounds c q.1 q.2 = true → cell_val a' q = cell_val a q + occ q l.
Proof.
  induction l as [| p l IH]; intros a Hs Hl.
  - exists a. split_and!; [done | done |]. intros. rewrite occ_nil. lia.
  - apply Forall_cons in Hl as [Hp Hl].
    destruct (adj_incr_spec c a p Hs Hp) as (a1 & E1 & Hs1 & Hv1).
    destruct (IH a1 Hs1 Hl) as (a2 & E2 & Hs2 & Hv2).
    exists a2. cbn. rewrite E1. split_and!; [done | done |].
    intros q Hq. rewrite Hv2, Hv1, occ_cons by done. lia.
Qed.

Lemma Forall_neighbors_in_bounds c r k :
  Forall (λ p, in_bounds c p.1 p.2 = true) (neighbors c r k).
Proof. apply Forall_forall. intros p Hp. by apply elem_of_neighbors in Hp as [? _]. Qed.

Lemma for_each_mines c ms : ∀ a,
  grid_shape c a →
  ∃ a', for_each (λ a m, for_each adj_incr (neighbors c m.1 m.2) a) ms a = Ok a' ∧
        grid_shape c a' ∧
        ∀ q, in_bounds c q.1 q.2 = true →
             cell_val a' q = cell_val a q +
               Z.of_nat (length (filter (λ m, q ∈ neighbors c m.1 m.2) ms)).
Proof.
  induction ms as [| m ms IH]; intros a Hs.
  - exists a. split_and!; [done | done |]. intros. cbn. lia.
  - destruct (for_each_adj_incr c _ a Hs (Forall_neighbors_in_bounds c m.1 m.2))
      as (a1 & E1 & Hs1 & Hv1).
    destruct (IH a1 Hs1) as (a2 & E2 & Hs2 & Hv2).
    exists a2. cbn [for_each]. rewrite E1. split_and!; [done | done |].
    intros q Hq. rewrite Hv2, Hv1 by done.
    rewrite occ_NoDup by apply NoDup_neighbors. rewrite filter_cons.
    destruct (decide (q ∈ neighbors c m.1 m.2)); cbn [length]; lia.
Qed.

(** Counting the mines that have [q] as a neighbour is counting the mines
    around [q]. *)
Lemma count_mines_sym (c : GameConfig) (ms : gset Coord) (q : Coord) :
  in_bounds c q.1 q.2 = true →
  length (filter (λ m, q ∈ neighbors c m.1 m.2) (elements ms))
  = size (filter (λ m, chebyshev1 m q) ms).
Proof.
  intros Hq. apply Permutation_length, NoDup_Permutation.
  - apply NoDup_filter, NoDup_elements.
  - apply NoDup_elements.
  - intros m. rewrite list_elem_of_filter, !elem_of_elements, elem_of_filter.
    rewrite elem_of_neighbors. unfold chebyshev1. cbn. split; intros [H1 H2]; split;
      try done; try lia. split; [done | lia].
Qed.

Lemma _recompute_adjacency_spec s :
  ∃ a, _recompute_adjacency s = Ok (set_adj s a) ∧ grid_shape (cfg s) a ∧
       ∀ r k, in_bounds (cfg s) r k = true → adj_get a r k = Some (mine_count s r k).
Proof.
  unfold _recompute_adjacency.
  destruct (for_each_mines (cfg s) (elements (mines s)) _ (grid_shape_zero (cfg s)))
    as (a & E & Hs & Hv).
  exists a. rewrite E. split_and!; [done | done |].
  intros r k Hb. rewrite (adj_get_shape _ _ _ _ Hs Hb). f_equal.
  rewrite (Hv (r, k)) by done. rewrite zero_grid_val by done.
  rewrite (count_mines_sym _ _ (r, k)) by done. done.
Qed.

(** Two grids of the shape of the board with the same entries are the same
    grid. *)
Lemma grid_ext c a b :
  grid_shape c a → grid_shape c b →
  (∀ q, in_bounds c q.1 q.2 = true → cell_val a q = cell_val b q) → a = b.
Proof.
  intros Ha Hb Hval. pose proof Ha as [Hla Hra]. pose proof Hb as [Hlb Hrb].
  rewrite Forall_lookup in Hra, Hrb.
  apply list_eq_same_length with (length a); [congruence | done |].
  intros i ra rb Hi Hia Hib.
  apply list_eq_same_length with (length ra);
    [by rewrite (Hra _ _ Hia), (Hrb _ _ Hib) | done |].
  intros j x y Hj Hx Hy.
  assert (Hq : in_bounds c (Z.of_nat i) (Z.of_nat j) = true).
  { apply in_bounds_spec. rewrite (Hra _ _ Hia) in Hj. lia. }
  specialize (Hval (Z.of_nat i, Z.of_nat j) Hq).
  destruct (cell_val_lookup c a (Z.of_nat i, Z.of_nat j) ra x) as [_ Ex];
    [done | done | cbn; by rewrite Nat2Z.id .. |].
  destruct (cell_val_lookup c b (Z.of_nat i, Z.of_nat j) rb y) as [_ Ey];
    [done | done | cbn; by rewrite Nat2Z.id .. |].
  congruence.
Qed.

(** A Python set is iterated in no promised order: the grid is the same in
    whatever order [_recompute_adjacency] meets the mines. *)
Lemma for_each_mines_order c ms ms' a :
  grid_shape c a → ms ≡ₚ ms' →
  for_each (λ a m, for_each adj_incr (neighbors c m.1 m.2) a) ms a
  = for_each (λ a m, for_each adj_incr (neighbors c m.1 m.2) a) ms' a.
Proof.
  intros Hs Hperm.
  destruct (for_each_mines c ms a Hs) as (a1 & -> & Hs1 & Hv1).
  destruct (for_each_mines c ms' a Hs) as (a2 & -> & Hs2 & Hv2).
  f_equal. apply (grid_ext c); [done | done |]. intros q Hq.
  rewrite Hv1, Hv2 by done. by rewrite Hperm.
Qed.

(** ** Sampling and mine placement *)

Lemma take_sample_spec (population : list Coord) (k : nat) :
  (k ≤ length population)%nat →
  length (take_sample population k) = k ∧
  ∃ rest, population ≡ₚ take_sample population k ++ rest.
Proof.
  intros Hk. unfold take_sample. split.
  - rewrite length_take. lia.
  - exists (drop k population). by rewrite take_drop.
Qed.

Lemma draw_sample_spec seed (k : nat) : ∀ population : list Coord,
  (k ≤ length population)%nat →
  length (draw_sample seed population k) = k ∧
  ∃ rest, population ≡ₚ draw_sample seed population k ++ rest.
Proof.
  induction k as [| k IH]; intros pool Hk.
  - split; [done |]. by exists pool.
  - cbn [draw_sample].
    assert (Hj : (seed k `mod` length pool < length pool)%nat)
      by (apply Nat.mod_upper_bound; lia).
    destruct (lookup_lt_is_Some_2 pool _ Hj) as [x Hx]. rewrite Hx.
    destruct (IH (delete (seed k `mod` length pool)%nat pool)) as [Hlen [rest Hrest]].
    { rewrite length_delete by eauto. lia. }
    split; [cbn; by rewrite Hlen |].
    exists rest. cbn. rewrite <- Hrest. by apply delete_Permutation.
Qed.

(** The sampler that takes the head of the population. *)
Definition rng_take : Rng := Build_Rng take_sample take_sample_spec.

(** The sampler that draws position [seed i mod len] for its [i]-th pick. *)
Definition rng_seeded (seed : nat → nat) : Rng :=
  Build_Rng (draw_sample seed) (λ population k, draw_sample_spec seed k population).

Lemma length_filter_ne (x : Coord) l :
  NoDup l → (length l ≤ S (length (filter (λ p, p ≠ x) l)))%nat.
Proof.
  induction 1 as [| y l Hy Hnd IH]; [cbn; lia |].
  rewrite filter_cons. destruct (decide (y ≠ x)) as [Hne | Heq]; [cbn; lia |].
  assert (y = x) as -> by (destruct (decide (y = x)); [done | contradiction]).
  assert (filter (λ p, p ≠ x) l = l) as ->; [| cbn; lia].
  clear IH Hnd. induction l as [| z l IH]; [done |].
  apply not_elem_of_cons in Hy as [Hz Hl].
  rewrite filter_cons, decide_True by done. f_equal. by apply IH.
Qed.

Lemma cells_count c :
  wf_config c →
  Z.of_nat (length (all_cells c)) = GameConfig.rows c * GameConfig.cols c.
Proof. intros [Hr Hc]. rewrite length_all_cells. nia. Qed.

Section Placement.

Variable rng : Rng.

(** What the sampler returns on a duplicate-free population. *)
Lemma sample_spec population k picked :
  NoDup population → sample rng population k = Some picked →
  Z.of_nat (length picked) = k ∧ NoDup picked ∧ picked ⊆ population.
Proof.
  unfold sample. intros Hnd Hs. case_bool_decide as Hk; [| done]. simplify_eq.
  destruct (rng_sample_spec rng population (Z.to_nat k)) as [Hlen [rest Hperm]]; [lia |].
  rewrite Hperm in Hnd. apply NoDup_app in Hnd as (Hnd & _ & _).
  split_and!; [lia | done |]. intros p Hp. rewrite Hperm. apply elem_of_app. by left.
Qed.

Lemma _place_mines_negative s safe :
  GameConfig.mines (cfg s) < 0 →
  _place_mines_first_click_safe rng s safe = Raise ValueError s.
Proof.
  intros Hneg. unfold _place_mines_first_click_safe, sample.
  rewrite (bool_decide_eq_false_2 (0 ≤ _ ≤ _)) by lia. done.
Qed.

Lemma _place_mines_spec s safe :
  wf_config (cfg s) →
  0 ≤ GameConfig.mines (cfg s) < GameConfig.rows (cfg s) * GameConfig.cols (cfg s) →
  ∃ M a,
    _place_mines_first_click_safe rng s safe
      = Ok (set_mines_placed (set_adj (set_mines s M) a) true) ∧
    Z.of_nat (size M) = GameConfig.mines (cfg s) ∧
    safe ∉ M ∧ M ⊆ board (cfg s) ∧ grid_shape (cfg s) a ∧
    ∀ r k, in_bounds (cfg s) r k = true →
           adj_get a r k = Some (mine_count (set_mines s M) r k).
Proof.
  intros Hwf Hm. unfold _place_mines_first_click_safe.
  set (forbidden := (list_to_set (neighbors (cfg s) safe.1 safe.2) ∪ {[safe]} : gset Coord)).
  set (cand1 := filter (λ p, p ∉ forbidden) (all_cells (cfg s))).
  set (cand2 := filter (λ p, p ≠ safe) (all_cells (cfg s))).
  set (cand := if bool_decide (Z.of_nat (length cand1) < GameConfig.mines (cfg s))
               then cand2 else cand1).
  assert (Hnd : NoDup cand).
  { unfold cand. case_bool_decide; apply NoDup_filter, NoDup_all_cells. }
  assert (Hsafe : ∀ p, p ∈ cand → p ≠ safe ∧ p ∈ all_cells (cfg s)).
  { unfold cand. intros p. case_bool_decide; intros [Hp ?]%list_elem_of_filter;
      (split; [| done]); [done |]. intros ->. apply Hp. unfold forbidden. set_solver. }
  assert (Hlen : GameConfig.mines (cfg s) ≤ Z.of_nat (length cand)).
  { unfold cand. case_bool_decide; [| lia].
    pose proof (length_filter_ne safe _ (NoDup_all_cells (cfg s))).
    pose proof (cells_count _ Hwf). fold cand2 in H0. lia. }
  destruct (sample rng cand (GameConfig.mines (cfg s))) as [picked |] eqn:Hs; cycle 1.
  { unfold sample in Hs. rewrite bool_decide_eq_true_2 in Hs by lia. done. }
  destruct (sample_spec _ _ _ Hnd Hs) as (Hk & Hndp & Hsub).
  assert (HMsub : (list_to_set picked : gset Coord) ⊆ board (cfg s)).
  { intros p Hp%elem_of_list_to_set. unfold board. apply elem_of_list_to_set.
    by apply Hsafe, Hsub. }
  destruct (_recompute_adjacency_spec (set_mines s (list_to_set picked)))
    as (a & Ha & Hshape & Hadj).
  exists (list_to_set picked), a. rewrite Ha. split_and!; try done.
  - by rewrite size_list_to_set.
  - intros Hp%elem_of_list_to_set. by apply Hsub, Hsafe in Hp as [? _].
Qed.

End Placement.

(** ** The flood-reveal loop *)

Lemma set_revealed_same s : set_revealed s (revealed s) = s.
Proof. by destruct s. Qed.

Lemma flood_skips_false s cell :
  flood_skips s cell = false ↔ cell ∉ revealed s ∧ cell ∉ flags s.
Proof.
  unfold flood_skips. rewrite orb_false_iff, !bool_decide_eq_false. done.
Qed.

Lemma flood_push_pushed s stack cell :
  flood_push s stack cell = reverse (pushed s cell) ++ stack.
Proof.
  unfold flood_push, pushed. revert stack.
  induction (neighbors (cfg s) cell.1 cell.2) as [| nb l IH]; intros stack; [done |].
  cbn [fold_left]. rewrite filter_cons, IH.
  destruct (decide (nb ∉ revealed s ∧ nb ∉ mines s ∧ nb ∉ flags s))
    as [(H1 & H2 & H3) | Hn].
  - rewrite !bool_decide_eq_true_2 by done. cbn [andb].
    by rewrite reverse_cons, <- app_assoc.
  - destruct (bool_decide (nb ∉ revealed s)) eqn:E1,
      (bool_decide (nb ∉ mines s)) eqn:E2, (bool_decide (nb ∉ flags s)) eqn:E3;
      try done.
    apply bool_decide_eq_true in E1, E2, E3. tauto.
Qed.

Lemma length_pushed s cell : (length (pushed s cell) ≤ 8)%nat.
Proof.
  unfold pushed. etrans; [apply length_filter |]. apply length_neighbors.
Qed.

Lemma elem_of_pushed s cell nb :
  nb ∈ pushed s cell ↔
  (nb ∉ revealed s ∧ nb ∉ mines s ∧ nb ∉ flags s) ∧
  in_bounds (cfg s) nb.1 nb.2 = true ∧ chebyshev1 nb cell.
Proof.
  unfold pushed. rewrite list_elem_of_filter, elem_of_neighbors.
  destruct cell. done.
Qed.

(** The three ways a turn of the loop can go on a cell of the board. *)
Lemma flood_body_cases s cell rest :
  grid_shape (cfg s) (adj s) → in_bounds (cfg s) cell.1 cell.2 = true →
  (flood_skips s cell = true ∧ flood_body s cell rest = Ok (s, rest)) ∨
  (flood_skips s cell = false ∧
   adj_get (adj s) cell.1 cell.2 ≠ Some 0 ∧
   flood_body s cell rest = Ok (set_revealed s ({[cell]} ∪ revealed s), rest)) ∨
  (flood_skips s cell = false ∧
   adj_get (adj s) cell.1 cell.2 = Some 0 ∧
   flood_body s cell rest
   = Ok (set_revealed s ({[cell]} ∪ revealed s),
         reverse (pushed (set_revealed s ({[cell]} ∪ revealed s)) cell) ++ rest)).
Proof.
  intros Hs Hb. unfold flood_body.
  destruct (flood_skips s cell) eqn:E; [by left | right].
  cbn [adj set_revealed]. rewrite (adj_get_shape _ _ _ _ Hs Hb).
  case_bool_decide as Hz.
  - right. rewrite Hz, flood_push_pushed. done.
  - left. split_and!; [done | congruence | done].
Qed.

Lemma size_unrevealed_mark s cell :
  in_bounds (cfg s) cell.1 cell.2 = true → cell ∉ revealed s →
  S (size (board (cfg s) ∖ ({[cell]} ∪ revealed s))) = size (board (cfg s) ∖ revealed s).
Proof.
  intros Hb Hr.
  assert (board (cfg s) ∖ revealed s
          = {[cell]} ∪ board (cfg s) ∖ ({[cell]} ∪ revealed s)) as ->.
  { apply set_eq. intros p. rewrite elem_of_union, !elem_of_difference, elem_of_union,
      elem_of_singleton. apply elem_of_board in Hb.
    destruct (decide (p = cell)) as [-> | ?]; naive_solver. }
  pose proof (size_union (C:=gset Coord) {[cell]}
                (board (cfg s) ∖ ({[cell]} ∪ revealed s))) as Hsz.
  rewrite Hsz by set_solver. by rewrite size_singleton.
Qed.

Lemma flood_measure_le s stack :
  (length stack ≤ 9)%nat →
  (flood_measure s stack < flood_fuel (cfg s))%nat.
Proof.
  intros Hlen. unfold flood_measure, flood_fuel.
  pose proof (subseteq_size (board (cfg s) ∖ revealed s) (board (cfg s))) as H.
  rewrite size_board in H. specialize (H ltac:(set_solver)). lia.
Qed.

Lemma flood_loop_spec fuel : ∀ s stack,
  grid_shape (cfg s) (adj s) →
  Forall (λ p, in_bounds (cfg s) p.1 p.2 = true) stack →
  (flood_measure s stack < fuel)%nat →
  ∃ X, flood_loop fuel s stack = Ok (set_revealed s X) ∧
       flood_post s stack X (flood_marks fuel s stack).
Proof.
  induction fuel as [| fuel IH]; intros s stack Hs Hst Hfuel; [lia |].
  destruct stack as [| cell rest].
  { exists (revealed s). cbn. rewrite set_revealed_same. split; [done |].
    split; cbn; try done; [set_solver | constructor | inversion 1 | inversion 1]. }
  apply Forall_cons in Hst as [Hb Hrest]. cbn [flood_loop flood_marks].
  unfold flood_measure in Hfuel. cbn [length] in Hfuel.
  destruct (flood_body_cases s cell rest Hs Hb)
    as [[Hsk ->] | [(Hsk & Hadj & ->) | (Hsk & Hadj & ->)]]; rewrite Hsk;
    cbn [res_bind fst snd app].
  - (* skipped *)
    destruct (IH s rest Hs Hrest) as (X & -> & HX); [unfold flood_measure; lia |].
    exists X. split; [done |]. destruct HX. split; try done.
    + intros Hm. apply fp_safe0. intros p Hp. apply Hm. by right.
    + intros p [-> | Hp]%elem_of_cons; [| by apply fp_stack0].
      unfold flood_skips in Hsk.
      apply orb_true_iff in Hsk as [H%bool_decide_eq_true | H%bool_decide_eq_true].
      * left. rewrite fp_marks0. set_solver.
      * by right.
  - (* marked, a number on the cell *)
    apply flood_skips_false in Hsk as [Hr Hf].
    set (s1 := set_revealed s ({[cell]} ∪ revealed s)).
    destruct (IH s1 rest Hs Hrest) as (X & -> & HX).
    { unfold flood_measure. pose proof (size_unrevealed_mark s cell Hb Hr).
      cbn [cfg revealed s1 set_revealed]. lia. }
    exists X. split; [done |]. destruct HX. subst s1.
    cbn [cfg revealed flags mines set_revealed] in *. split.
    + rewrite fp_marks0. cbn. set_solver.
    + apply NoDup_cons. split; [| done]. intros Hin. apply fp_fresh0 in Hin. set_solver.
    + intros p [-> | Hp]%elem_of_cons; [done |].
      destruct (fp_fresh0 p Hp) as (? & ? & ?). split_and!; [set_solver | done | done].
    + intros Hm p [-> | Hp]%elem_of_cons.
      * apply Hm. by left.
      * apply fp_safe0; [| done]. intros q Hq. apply Hm. by right.
    + intros p [-> | Hp]%elem_of_cons; [| by apply fp_stack0].
      left. rewrite fp_marks0. set_solver.
  - (* marked, an empty cell: the neighbours go on the stack *)
    apply flood_skips_false in Hsk as [Hr Hf].
    set (s1 := set_revealed s ({[cell]} ∪ revealed s)).
    destruct (IH s1 (reverse (pushed s1 cell) ++ rest) Hs) as (X & -> & HX).
    { apply Forall_app. split; [| done]. apply Forall_forall.
      intros p Hp%elem_of_reverse%elem_of_pushed. tauto. }
    { unfold flood_measure. pose proof (size_unrevealed_mark s cell Hb Hr).
      pose proof (length_pushed s1 cell).
      rewrite length_app, length_reverse. cbn [cfg revealed s1 set_revealed]. lia. }
    exists X. split; [done |]. destruct HX. subst s1.
    cbn [cfg revealed flags mines set_revealed] in *. split.
    + rewrite fp_marks0. cbn. set_solver.
    + apply NoDup_cons. split; [| done]. intros Hin. apply fp_fresh0 in Hin. set_solver.
    + intros p [-> | Hp]%elem_of_cons; [done |].
      destruct (fp_fresh0 p Hp) as (? & ? & ?). split_and!; [set_solver | done | done].
    + intros Hm p [-> | Hp]%elem_of_cons.
      * apply Hm. by left.
      * apply fp_safe0; [| done].
        intros q [Hq%elem_of_reverse%elem_of_pushed | Hq]%elem_of_app.
        -- cbn [cfg revealed flags mines set_revealed] in Hq. tauto.
        -- apply Hm. by right.
    + intros p [-> | Hp]%elem_of_cons.
      * left. rewrite fp_marks0. set_solver.
      * apply fp_stack0. apply elem_of_app. by right.
Qed.

(** More fuel than the loop needs changes nothing. *)
Lemma flood_loop_more fuel : ∀ s stack k,
  flood_loop fuel s stack ≠ OutOfFuel →
  flood_loop (fuel + k) s stack = flood_loop fuel s stack ∧
  flood_marks (fuel + k) s stack = flood_marks fuel s stack.
Proof.
  induction fuel as [| fuel IH]; intros s stack k Hne; [done |].
  destruct stack as [| cell rest]; [done |].
  cbn [flood_loop flood_marks Nat.add] in *.
  destruct (flood_body s cell rest) as [[s' stack'] | e [s' stack'] |]; cbn in *;
    [| done | done].
  destruct (IH s' stack' k Hne) as [-> ->]. done.
Qed.

(** The budget of [_flood_reveal] is enough from any starting cell, on the
    board or not: after the first turn only cells of the board are on the
    stack. *)
Lemma _flood_reveal_total s start :
  grid_shape (cfg s) (adj s) →
  _flood_reveal s start ≠ OutOfFuel ∧
  ∀ extra, flood_loop (flood_fuel (cfg s) + extra) s [start] = _flood_reveal s start.
Proof.
  intros Hs.
  assert (Hne : _flood_reveal s start ≠ OutOfFuel); cycle 1.
  { split; [done |]. intros extra. by apply flood_loop_more. }
  unfold _flood_reveal, flood_fuel.
  set (n := (Z.to_nat (GameConfig.rows (cfg s)) * Z.to_nat (GameConfig.cols (cfg s)))%nat).
  remember (S (8 + 8 * n)) as m eqn:Hm.
  replace (8 * n + 10)%nat with (S m) by lia.
  assert (Hnil : ∀ st, flood_loop m st [] = Ok st) by (intros st; by subst m).
  cbn [flood_loop]. unfold flood_body.
  destruct (flood_skips s start) eqn:Hsk; [cbn; by rewrite Hnil |].
  set (s1 := set_revealed s ({[start]} ∪ revealed s)).
  destruct (adj_get (adj s1) start.1 start.2) as [a |]; [| done].
  case_bool_decide; cbn [res_bind fst snd]; [| by rewrite Hnil].
  rewrite flood_push_pushed.
  destruct (flood_loop_spec m s1 (reverse (pushed s1 start) ++ []))
    as (X & HX & _); [done | | | by rewrite HX].
  - rewrite app_nil_r. apply Forall_forall.
    intros p Hp%elem_of_reverse%elem_of_pushed. tauto.
  - unfold flood_measure. rewrite app_nil_r, length_reverse.
    pose proof (length_pushed s1 start).
    pose proof (subseteq_size (board (cfg s1) ∖ revealed s1) (board (cfg s1))) as Hsz.
    rewrite size_board in Hsz. specialize (Hsz ltac:(set_solver)).
    cbn [cfg s1 set_revealed] in *. fold n in Hsz. lia.
Qed.

(** ** The invariant of the engine *)

Lemma inv_init c s : __init__ c = inl s → inv s.
Proof.
  unfold __init__. case_bool_decide as Hm; [done |]. intros [= <-].
  split; cbn; try done; try set_solver.
  - lia.
  - apply grid_shape_zero.
  - intros r k Hb. rewrite (adj_get_shape _ _ _ _ (grid_shape_zero c) Hb).
    rewrite zero_grid_val by done. unfold mine_count. cbn.
    rewrite filter_empty_L; [| apply _]. by rewrite size_empty.
  - intros _. rewrite size_empty. lia.
Qed.

Lemma inv_toggle_flag s r c : inv s → inv (toggle_flag s r c).
Proof.
  intros []. unfold toggle_flag.
  destruct (game_over s || negb (in_bounds (cfg s) r c)) eqn:E; [done |].
  apply orb_false_iff in E as [Hgo Hb]. apply negb_false_iff in Hb.
  case_bool_decide as Hr; [done |]. case_bool_decide as Hf.
  - split; cbn; try done; set_solver.
  - assert ((r, c) ∈ board (cfg s)) by by apply elem_of_board.
    split; cbn; try done; set_solver.
Qed.

(** The losing branch of [reveal]. *)
Lemma inv_lose s cell :
  inv s → cell ∈ mines s → cell ∉ flags s →
  inv (set_revealed (set_won (set_game_over s true) false) ({[cell]} ∪ revealed s)).
Proof.
  intros [] Hm Hf. split; cbn; try done; set_solver.
Qed.

(** The branch of [reveal] that floods and then checks for a win. *)
Lemma inv_flooded s stack X marks :
  inv s → game_over s = false → _mines_placed s = true →
  (∀ p, p ∈ stack → p ∉ mines s) →
  flood_post s stack X marks →
  inv (_check_win (set_revealed s X)).
Proof.
  intros [] Hgo Hp Hst []. unfold _check_win. cbn [cfg revealed set_revealed].
  assert (HX : X ⊆ board (cfg s)).
  { rewrite fp_marks0. intros p [Hp' | Hp'%elem_of_list_to_set]%elem_of_union.
    - by apply inv_revealed0.
    - apply elem_of_board. by apply fp_fresh0. }
  assert (HXf : X ## flags s).
  { rewrite fp_marks0. intros p [Hp' | Hp'%elem_of_list_to_set]%elem_of_union Hf.
    - by apply (inv_disjoint0 p).
    - by apply fp_fresh0 in Hp' as (_ & ? & _). }
  assert (HXm : X ## mines s).
  { rewrite fp_marks0. intros p [Hp' | Hp'%elem_of_list_to_set]%elem_of_union Hm.
    - by apply (inv_safe0 Hgo p).
    - by apply (fp_safe0 Hst p). }
  case_bool_decide as Hw; split; cbn; try done; try congruence.
  intros Hwon. destruct (inv_won0 Hwon) as [? _]. congruence.
Qed.

Section Runs.

Variable rng : Rng.

(** Placement, from a state of the invariant. *)
Lemma inv_place s safe :
  inv s → _mines_placed s = false → wf_config (cfg s) →
  0 ≤ GameConfig.mines (cfg s) →
  ∃ s1, _place_mines_first_click_safe rng s safe = Ok s1 ∧ inv s1 ∧
        _mines_placed s1 = true ∧ safe ∉ mines s1 ∧
        cfg s1 = cfg s ∧ revealed s1 = ∅ ∧ flags s1 = flags s ∧
        game_over s1 = false ∧ won s1 = won s.
Proof.
  intros [] Hp Hwf Hm. destruct (inv_unplaced0 Hp) as (Hm0 & Hr0 & Hgo).
  destruct (_place_mines_spec rng s safe Hwf ltac:(lia))
    as (M & a & -> & Hsz & Hsafe & Hsub & Hshape & Hadj).
  eexists. split; [done |]. split_and!; try done.
  split; cbn; try done. rewrite Hr0. set_solver.
Qed.

Lemma reveal_cases s r c : inv s → reveal_case rng s r c (reveal rng s r c).
Proof.
  intros Hinv. unfold reveal.
  destruct (game_over s) eqn:Hgo; [constructor; tauto |].
  destruct (in_bounds (cfg s) r c) eqn:Hb; [| constructor; tauto].
  cbn [orb negb].
  destruct (decide ((r, c) ∈ flags s)) as [Hf | Hf];
    [rewrite bool_decide_eq_true_2 by done; constructor; tauto |].
  destruct (decide ((r, c) ∈ revealed s)) as [Hr | Hr];
    [rewrite (bool_decide_eq_true_2 (_ ∈ revealed s)) by done;
     rewrite orb_true_r; constructor; tauto |].
  rewrite !bool_decide_eq_false_2 by done. cbn [orb].
  assert (Hflood : ∀ s1, inv s1 → _mines_placed s1 = true → (r, c) ∉ mines s1 →
            cfg s1 = cfg s → flags s1 = flags s → revealed s1 = revealed s →
            ∃ X, _flood_reveal s1 (r, c) = Ok (set_revealed s1 X) ∧
                 flood_post s1 [(r, c)] X (flood_marks (flood_fuel (cfg s1)) s1 [(r, c)])).
  { intros s1 Hinv1 _ _ Hc _ _. apply flood_loop_spec.
    - apply Hinv1.
    - apply Forall_singleton. by rewrite Hc.
    - apply flood_measure_le. cbn. lia. }
  destruct (_mines_placed s) eqn:Hp; cbn [negb res_bind id].
  - destruct (decide ((r, c) ∈ mines s)) as [Hm | Hm].
    + rewrite bool_decide_eq_true_2 by done. by constructor.
    + rewrite bool_decide_eq_false_2 by done.
      destruct (Hflood s) as (X & HX & Hpost); try done.
      rewrite HX. cbn [res_bind id].
      eapply reveal_flood; try done; by rewrite Hp.
  - destruct (decide (GameConfig.mines (cfg s) < 0)) as [Hneg | Hnn].
    { rewrite _place_mines_negative by done. by constructor. }
    destruct (inv_place s (r, c) Hinv Hp)
      as (s1 & E & Hinv1 & Hp1 & Hs1 & Hc & Hr1 & Hf1 & Hg1 & Hw1);
      [by eapply in_bounds_wf | lia |].
    rewrite E. cbn [res_bind id]. rewrite bool_decide_eq_false_2 by done.
    destruct (inv_unplaced _ Hinv Hp) as (_ & Hr0 & _).
    destruct (Hflood s1) as (X & HX & Hpost); try done; [congruence |].
    rewrite HX. cbn [res_bind id].
    eapply reveal_flood; try done; try congruence. rewrite Hp. split; [lia | done].
Qed.

End Runs.

(** Case analysis on a call of [reveal] from a state of the invariant. *)
Ltac reveal_cases_of g st x y Hst :=
  let Hc := fresh "Hc" in
  let m := fresh "m" in
  let Em := fresh "Em" in
  pose proof (reveal_cases g st x y Hst) as Hc;
  remember (reveal g st x y) as m eqn:Em; clear Em;
  destruct Hc as
    [ Hnoop
    | Hlive Hunplaced Hneg
    | Hlive Hplaced Hmine Hnoflag Hhidden
    | s1 X Hlive Hboard Hnoflag Hhidden Hs1 Hinv1 Hplaced1 Hsafe1
        Hcfg1 Hrev1 Hflags1 Hlive1 Hwon1 Hflood Hpost ].

Section Reachability.

Variable rng : Rng.

Lemma check_win_fields s :
  cfg (_check_win s) = cfg s ∧ mines (_check_win s) = mines s ∧
  adj (_check_win s) = adj s ∧ revealed (_check_win s) = revealed s ∧
  flags (_check_win s) = flags s ∧ _mines_placed (_check_win s) = _mines_placed s.
Proof. unfold _check_win. by case_bool_decide. Qed.

Lemma toggle_flag_fields s r c :
  cfg (toggle_flag s r c) = cfg s ∧ mines (toggle_flag s r c) = mines s ∧
  adj (toggle_flag s r c) = adj s ∧ revealed (toggle_flag s r c) = revealed s ∧
  _mines_placed (toggle_flag s r c) = _mines_placed s ∧
  game_over (toggle_flag s r c) = game_over s ∧ won (toggle_flag s r c) = won s.
Proof.
  unfold toggle_flag. destruct (game_over s || negb (in_bounds (cfg s) r c)); [done |].
  by repeat case_bool_decide.
Qed.

Lemma inv_reveal s r c s' :
  inv s → final (reveal rng s r c) = Some s' → inv s'.
Proof.
  intros Hinv. reveal_cases_of rng s r c Hinv; cbn; intros [= <-]; try done.
  - by apply inv_lose.
  - eapply inv_flooded; try done.
    intros p ->%list_elem_of_singleton. done.
Qed.

Lemma inv_step s o s' : inv s → step rng s o = Some s' → inv s'.
Proof.
  intros Hinv. destruct o as [r c | r c]; cbn.
  - by apply inv_reveal.
  - intros [= <-]. by apply inv_toggle_flag.
Qed.

Lemma reachable_inv s : reachable rng s → inv s.
Proof.
  induction 1 as [c s Hinit | s o s' _ IH Hstep].
  - by eapply inv_init.
  - by eapply inv_step.
Qed.

Lemma steps_reachable s s' : reachable rng s → steps rng s s' → reachable rng s'.
Proof.
  intros Hr Hs. induction Hs as [| s o s' s'' Hstep _ IH]; [done |].
  apply IH. by eapply reachable_step.
Qed.

(** [reveal] never exhausts the budget of the loop, whatever the state of
    the invariant it starts from. *)
Lemma reveal_total s r c : inv s → reveal rng s r c ≠ OutOfFuel.
Proof. intros Hinv. by reveal_cases_of rng s r c Hinv. Qed.

Lemma step_total s o : inv s → is_Some (step rng s o).
Proof.
  intros Hinv. destruct o as [r c | r c]; cbn; [| by eexists].
  pose proof (reveal_total s r c Hinv) as Ht.
  destruct (reveal rng s r c); [by eexists | by eexists | done].
Qed.

(** A terminal state absorbs every operation. *)
Lemma step_game_over s o s' :
  game_over s = true → step rng s o = Some s' → s' = s.
Proof.
  intros Hgo. destruct o as [r c | r c]; cbn.
  - unfold reveal. rewrite Hgo. cbn. congruence.
  - unfold toggle_flag. rewrite Hgo. cbn. congruence.
Qed.

Lemma steps_game_over s s' : game_over s = true → steps rng s s' → s' = s.
Proof.
  intros Hgo Hs. induction Hs as [| s o s' s'' Hstep _ IH]; [done |].
  apply (step_game_over _ _ _ Hgo) in Hstep as ->. by apply IH.
Qed.

(** Once placed, the mines, the grid and the configuration stay. *)
Lemma step_placed s o s' :
  inv s → _mines_placed s = true → step rng s o = Some s' →
  mines s' = mines s ∧ adj s' = adj s ∧ cfg s' = cfg s ∧ _mines_placed s' = true.
Proof.
  intros Hinv Hp. destruct o as [r c | r c]; cbn.
  - reveal_cases_of rng s r c Hinv; cbn; intros [= <-]; try done.
    rewrite Hp in *. subst s1.
    destruct (check_win_fields (set_revealed s X)) as (-> & -> & -> & _ & _ & ->). done.
  - intros [= <-]. destruct (toggle_flag_fields s r c) as (-> & -> & -> & _ & -> & _).
    done.
Qed.

Lemma steps_placed s s' :
  inv s → _mines_placed s = true → steps rng s s' →
  mines s' = mines s ∧ adj s' = adj s ∧ cfg s' = cfg s ∧ _mines_placed s' = true.
Proof.
  intros Hinv Hp Hs. induction Hs as [| s o s' s'' Hstep _ IH]; [done |].
  destruct (step_placed _ _ _ Hinv Hp Hstep) as (E1 & E2 & E3 & E4).
  destruct IH as (-> & -> & -> & ->); [by eapply inv_step | done |]. done.
Qed.

End Reachability.

(** What a terminal state shows of the mines. *)
Lemma inv_terminal_init c s : __init__ c = inl s → inv_terminal s.
Proof.
  unfold __init__. case_bool_decide; [done |]. intros [= <-]. by split.
Qed.

Lemma inv_terminal_step rng s o s' :
  inv s → inv_terminal s → step rng s o = Some s' → inv_terminal s'.
Proof.
  intros Hinv Hit. destruct o as [r c | r c]; cbn.
  - reveal_cases_of rng s r c Hinv; cbn; intros [= <-]; try done.
    + (* a mine was hit *)
      destruct Hit. split; cbn; try done.
      * intros _. apply (non_empty_inhabited_L (r, c)).
        apply elem_of_union. left. by apply elem_of_singleton.
      * intros _ _. exists (r, c). split_and!; [done | | |].
        -- apply elem_of_union. left. by apply elem_of_singleton.
        -- intros p [Hp Hne]%elem_of_difference Hpm.
           apply elem_of_union in Hp as [Hp | Hp]; [done |].
           by apply (inv_safe _ Hinv Hlive p).
        -- assert (({[(r, c)]} ∪ revealed s) ∖ {[(r, c)]} = revealed s) as ->.
           { apply set_eq. intros p.
             rewrite elem_of_difference, elem_of_union, elem_of_singleton.
             destruct (decide (p = (r, c))) as [-> | ?]; tauto. }
           by apply (inv_live _ Hinv).
    + (* flood and check *)
      assert (Hin : (r, c) ∈ X).
      { destruct (fp_stack _ _ _ _ Hpost (r, c)) as [? | Hf]; [by left | done |].
        by rewrite Hflags1 in Hf. }
      assert (HXm : X ## mines s1).
      { rewrite (fp_marks _ _ _ _ Hpost).
        intros p [Hp | Hp%elem_of_list_to_set]%elem_of_union Hpm.
        - by apply (inv_safe _ Hinv1 Hlive1 p).
        - apply (fp_safe _ _ _ _ Hpost) in Hp; [done |].
          by intros ? ->%list_elem_of_singleton. }
      destruct (check_win_fields (set_revealed s1 X)) as (Ec & Em & _ & Er & _ & Ep).
      split; rewrite ?Ec, ?Em, ?Er, ?Ep; cbn [cfg mines revealed _mines_placed set_revealed].
      * intros _. rewrite Hcfg1. by eapply in_bounds_wf.
      * intros _. by apply (non_empty_inhabited_L (r, c)).
      * done.
      * unfold _check_win. case_bool_decide; cbn; [done |]. congruence.
  - intros [= <-].
    destruct (toggle_flag_fields s r c) as (Ec & Em & _ & Er & Ep & Eg & Ew).
    destruct Hit. split; rewrite ?Ec, ?Em, ?Er, ?Ep, ?Eg, ?Ew; done.
Qed.

Lemma reachable_inv_terminal rng s : reachable rng s → inv_terminal s.
Proof.
  induction 1 as [c s Hinit | s o s' Hr IH Hstep].
  - by eapply inv_terminal_init.
  - eapply inv_terminal_step; [by eapply reachable_inv | done | done].
Qed.

(** ** Concrete games *)

Lemma run_steps rng ops : ∀ s s', run rng s ops = Some s' → steps rng s s'.
Proof.
  induction ops as [| o ops IH]; intros s s'; cbn.
  - intros [= <-]. constructor.
  - destruct (step rng s o) as [s1 |] eqn:E; [| done]. intros Hrun.
    eapply steps_step; [done |]. by apply IH.
Qed.

Lemma play_reachable rng c ops s : play rng c ops = Some s → reachable rng s.
Proof.
  unfold play. destruct (__init__ c) as [s0 | e] eqn:E; [| done]. intros Hrun.
  eapply steps_reachable; [by eapply reachable_init | by eapply run_steps].
Qed.

Lemma row_opened_play :
  play (rng_seeded seed_row) cfg_1x5 [Reveal 0 0] = Some row_opened.
Proof. vm_compute. reflexivity. Qed.

Lemma row_lost_play :
  play (rng_seeded seed_row) cfg_1x5 [Reveal 0 0; Reveal 0 2] = Some row_lost.
Proof. vm_compute. reflexivity. Qed.

Lemma row_flagged_play :
  play (rng_seeded seed_row) cfg_1x5 [Reveal 0 0; ToggleFlag 0 2] = Some row_flagged.
Proof. vm_compute. reflexivity. Qed.

Lemma fresh_4x4_reachable rng : reachable rng fresh_4x4.
Proof. by apply (reachable_init rng cfg_4x4). Qed.

Lemma won_4x4_reveal :
  reveal (rng_seeded seed_corner) fresh_4x4 0 0 = Ok won_4x4.
Proof. vm_compute. reflexivity. Qed.

Lemma won_4x4_play :
  play (rng_seeded seed_corner) cfg_4x4 [Reveal 0 0] = Some won_4x4.
Proof. vm_compute. reflexivity. Qed.

(** Scenario A of the spec: the mine in the corner, one click wins. *)
Example scenario_A :
  ∃ s, play (rng_seeded seed_corner) cfg_4x4 [Reveal 0 0] = Some s ∧
       mines s = {[(3, 3)]} ∧ size (revealed s) = 15%nat ∧
       (3, 3) ∉ revealed s ∧ game_over s = true ∧ won s = true.
Proof. eexists. split; [vm_compute; reflexivity |]. by vm_compute. Qed.

(** The guard of [__init__] on a 2 by 2 board: three mines pass (the board of
    Scenario B of the spec), four do not. *)
Example dense_2x2 :
  (∃ s, __init__ (GameConfig.mk 2 2 3) = inl s) ∧
  __init__ (GameConfig.mk 2 2 4) = inr ValueError.
Proof. split; [by eexists | reflexivity]. Qed.

(** On that board the pool without the neighbours is empty, so the fallback
    mines every cell but the clicked one, and the click wins. *)
Example fallback_2x2 :
  ∃ s, play rng_take (GameConfig.mk 2 2 3) [Reveal 0 0] = Some s ∧
       mines s = {[(0, 1); (1, 0); (1, 1)]} ∧ revealed s = {[(0, 0)]} ∧
       won s = true.
Proof. eexists. split; [vm_compute; reflexivity |]. by vm_compute. Qed.

(** Every preset of the shell is a configuration the engine accepts. *)
Lemma DIFFICULTIES_valid level c :
  DIFFICULTIES level = Some c →
  wf_config c ∧
  0 ≤ GameConfig.mines c < GameConfig.rows c * GameConfig.cols c ∧
  ∃ s, __init__ c = inl s.
Proof.
  unfold DIFFICULTIES. repeat case_bool_decide; intros [= <-];
    (split; [by vm_compute | split; [by vm_compute | by eexists]]).
Qed.

(** A negative [mines] passes [__init__] and is refused by [rng.sample] at
    the first click, which leaves the engine as it was. *)
Lemma negative_mines_raise_at_first_click rng c s r k :
  GameConfig.mines c < 0 → __init__ c = inl s → in_bounds c r k = true →
  reveal rng s r k = Raise ValueError s.
Proof.
  intros Hminus Hinit Hb. pose proof (inv_init _ _ Hinit) as Hinv.
  unfold __init__ in Hinit. case_bool_decide; [done |]. injection Hinit as <-.
  reveal_cases_of rng
    (Build_Minesweeper c ∅ (zero_grid c) ∅ ∅ false false false) r k Hinv.
  - cbn in Hnoop. destruct Hnoop as [? | [? | [H' | H']]];
      [done | congruence | by apply not_elem_of_empty in H' ..].
  - done.
  - done.
  - cbn in Hs1. lia.
Qed.

(** * The claims *)

(** ** C1: the first click is safe *)

(** C1: whatever the sampler, on a configuration with
    [0 <= mines < rows * cols] the first [reveal] of a cell of the board
    returns, places exactly [mines] mines none of which is on that cell, shows
    the cell, and ends the game only by winning it. *)
Theorem first_click_is_safe (rng : Rng) (c : GameConfig) (r k : Z) :
  0 ≤ GameConfig.mines c < GameConfig.rows c * GameConfig.cols c →
  in_bounds c r k = true →
  ∃ s0 s1,
    __init__ c = inl s0 ∧ reveal rng s0 r k = Ok s1 ∧
    (r, k) ∉ mines s1 ∧ (r, k) ∈ revealed s1 ∧
    _mines_placed s1 = true ∧ Z.of_nat (size (mines s1)) = GameConfig.mines c ∧
    (won s1 = false → game_over s1 = false) ∧
    (game_over s1 = true → won s1 = true).
Proof.
  intros Hm Hb.
  set (s0 := Build_Minesweeper c ∅ (zero_grid c) ∅ ∅ false false false).
  assert (Hinit : __init__ c = inl s0).
  { unfold __init__. rewrite bool_decide_eq_false_2 by lia. done. }
  pose proof (inv_init _ _ Hinit) as Hinv.
  exists s0. reveal_cases_of rng s0 r k Hinv.
  - exfalso. cbn in Hnoop. destruct Hnoop as [? | [? | [H | H]]];
      [done | congruence | by apply not_elem_of_empty in H ..].
  - cbn in *. lia.
  - done.
  - exists (_check_win (set_revealed s1 X)). split; [done |]. split; [done |].
    destruct (check_win_fields (set_revealed s1 X)) as (Ec & -> & _ & -> & _ & ->).
    cbn [mines revealed _mines_placed set_revealed].
    assert (Hin : (r, k) ∈ X).
    { destruct (fp_stack _ _ _ _ Hpost (r, k)) as [? | Hf]; [by left | done |].
      rewrite Hflags1 in Hf. by apply not_elem_of_empty in Hf. }
    split_and!; try done.
    + rewrite (inv_placed _ Hinv1 Hplaced1). by rewrite Hcfg1.
    + unfold _check_win. case_bool_decide; cbn; [done |]. congruence.
    + unfold _check_win. case_bool_decide; cbn; [done |]. congruence.
Qed.

Lemma first_click_is_safe_witness :
  (0 ≤ GameConfig.mines cfg_4x4
     < GameConfig.rows cfg_4x4 * GameConfig.cols cfg_4x4 ∧
   in_bounds cfg_4x4 0 0 = true) ∧
  ∃ s0 s1,
    __init__ cfg_4x4 = inl s0 ∧ reveal (rng_seeded seed_corner) s0 0 0 = Ok s1 ∧
    (0, 0) ∉ mines s1 ∧ (0, 0) ∈ revealed s1 ∧
    _mines_placed s1 = true ∧
    Z.of_nat (size (mines s1)) = GameConfig.mines cfg_4x4 ∧
    (won s1 = false → game_over s1 = false) ∧
    (game_over s1 = true → won s1 = true).
Proof.
  assert (H1 : 0 ≤ GameConfig.mines cfg_4x4
                 < GameConfig.rows cfg_4x4 * GameConfig.cols cfg_4x4) by (cbn; lia).
  split; [split; [exact H1 | reflexivity] |].
  apply (first_click_is_safe (rng_seeded seed_corner) cfg_4x4 0 0 H1 eq_refl).
Defined.

(** ** C2: winning and losing *)

(** In a reachable state the game is lost exactly when a mine is revealed. *)
Lemma lost_iff_mine_revealed rng s :
  reachable rng s → (is_lost s ↔ ∃ p, p ∈ mines s ∧ p ∈ revealed s).
Proof.
  intros Hr. pose proof (reachable_inv _ _ Hr) as Hinv.
  pose proof (reachable_inv_terminal _ _ Hr) as Hit. split.
  - intros [Hgo Hw]. destruct (it_lost _ Hit Hgo Hw) as (p & Hpm & Hpr & _). by exists p.
  - intros (p & Hpm & Hpr). destruct (game_over s) eqn:Hgo.
    + destruct (won s) eqn:Hw; [| done]. by destruct (it_won _ Hit Hw p).
    + by destruct (inv_safe _ Hinv Hgo p).
Qed.

(** In a reachable state the game is won exactly when no mine is revealed and
    the count of the revealed cells is the number of safe cells. *)
Lemma won_iff_count rng s :
  reachable rng s →
  (won s = true ∧ game_over s = true ↔
   revealed s ## mines s ∧
   Z.of_nat (size (revealed s))
   = GameConfig.rows (cfg s) * GameConfig.cols (cfg s) - GameConfig.mines (cfg s)).
Proof.
  intros Hr. pose proof (reachable_inv _ _ Hr) as Hinv.
  pose proof (reachable_inv_terminal _ _ Hr) as Hit. split.
  - intros [Hw _]. split; [by apply Hit | by apply Hinv].
  - intros [Hdis Hsz]. destruct (game_over s) eqn:Hgo; [| by apply (inv_live _ Hinv) in Hsz].
    destruct (won s) eqn:Hw; [done |].
    destruct (it_lost _ Hit Hgo Hw) as (p & Hpm & Hpr & _). by destruct (Hdis p).
Qed.

(** A call of [reveal] that returns, on a cell that is no mine, reveals no
    mine. *)
Lemma reveal_spares_mines rng s r c s' :
  reachable rng s → revealed s ## mines s →
  reveal rng s r c = Ok s' → (r, c) ∉ mines s' → revealed s' ## mines s'.
Proof.
  intros Hr Hdis Hrev Hcell. pose proof (reachable_inv _ _ Hr) as Hinv.
  assert (Hr' : reachable rng s').
  { apply (reachable_step rng s (Reveal r c)); [done |]. cbn. by rewrite Hrev. }
  destruct (game_over s') eqn:Hgo'; [| by apply (reachable_inv _ _ Hr')].
  destruct (won s') eqn:Hw'; [by apply (reachable_inv_terminal _ _ Hr') |].
  exfalso. revert Hrev. reveal_cases_of rng s r c Hinv; intros [= <-].
  - destruct (proj1 (lost_iff_mine_revealed _ _ Hr) (conj Hgo' Hw')) as (p & Hpm & Hpr).
    by destruct (Hdis p).
  - done.
  - revert Hgo' Hw'. unfold _check_win. case_bool_decide; cbn; congruence.
Qed.

(** C2 as stated fails: in a lost game the count of the revealed cells can be
    [rows * cols - mines] all the same, because the mine that was hit is
    counted, and the game is not won. *)
Lemma won_iff_count_fails_when_lost :
  ¬ ∀ (rng : Rng) (s : Minesweeper),
      reachable rng s →
      (won s = true ∧ game_over s = true ↔
       Z.of_nat (size (revealed s))
       = GameConfig.rows (cfg s) * GameConfig.cols (cfg s) - GameConfig.mines (cfg s)).
Proof.
  intros H.
  destruct (H (rng_seeded seed_row) row_lost (play_reachable _ _ _ _ row_lost_play))
    as [_ Hwon].
  destruct Hwon as [Hw _]; [by vm_compute | by vm_compute in Hw].
Qed.

(** C2, amended: in a reachable state the game is won exactly when no mine is
    revealed and [rows * cols - mines] cells are, and lost exactly when a mine
    is revealed; after a call of [reveal], made when no mine was revealed, on a
    cell that is no mine, the game is won exactly when [rows * cols - mines]
    cells are revealed; [reveal] on an unflagged mine of a live game shows it
    and sets [game_over] with [won] false; and a lost game stays lost, a won
    game stays won, whatever is called afterwards. *)
Theorem win_iff_safe_cells_revealed (rng : Rng) (s : Minesweeper) :
  reachable rng s →
  (won s = true ∧ game_over s = true ↔
   revealed s ## mines s ∧
   Z.of_nat (size (revealed s))
   = GameConfig.rows (cfg s) * GameConfig.cols (cfg s) - GameConfig.mines (cfg s)) ∧
  (is_lost s ↔ ∃ p, p ∈ mines s ∧ p ∈ revealed s) ∧
  (∀ r c s', revealed s ## mines s → reveal rng s r c = Ok s' → (r, c) ∉ mines s' →
     (won s' = true ∧ game_over s' = true ↔
      Z.of_nat (size (revealed s'))
      = GameConfig.rows (cfg s') * GameConfig.cols (cfg s') - GameConfig.mines (cfg s'))) ∧
  (∀ r c, game_over s = false → (r, c) ∈ mines s → (r, c) ∉ flags s →
     ∃ s', reveal rng s r c = Ok s' ∧ won s' = false ∧ game_over s' = true ∧
           revealed s' = {[(r, c)]} ∪ revealed s) ∧
  (∀ s', steps rng s s' →
     (is_lost s → is_lost s') ∧ (is_won s → is_won s') ∧ ¬ (is_lost s' ∧ is_won s')).
Proof.
  intros Hr. pose proof (reachable_inv _ _ Hr) as Hinv. split_and!.
  - by apply (won_iff_count rng).
  - by apply (lost_iff_mine_revealed rng).
  - intros r c s' Hdis Hrev Hcell.
    assert (Hr' : reachable rng s').
    { apply (reachable_step rng s (Reveal r c)); [done |]. cbn. by rewrite Hrev. }
    pose proof (reveal_spares_mines _ _ _ _ _ Hr Hdis Hrev Hcell) as Hdis'.
    rewrite (won_iff_count _ _ Hr'). tauto.
  - intros r c Hgo Hm Hf.
    assert (Hb : in_bounds (cfg s) r c = true).
    { apply (elem_of_board _ (r, c)). by apply Hinv. }
    assert (Hnr : (r, c) ∉ revealed s).
    { intros Hin. by apply (inv_safe _ Hinv Hgo (r, c)). }
    assert (Hp : _mines_placed s = true).
    { destruct (_mines_placed s) eqn:E; [done |].
      destruct (inv_unplaced _ Hinv E) as (H0 & _). rewrite H0 in Hm.
      by apply not_elem_of_empty in Hm. }
    reveal_cases_of rng s r c Hinv.
    + destruct Hnoop as [? | [? | [? | ?]]]; congruence || done.
    + congruence.
    + eexists. split; [done |]. done.
    + rewrite Hp in Hs1. subst s1. done.
  - intros s' Hs. split_and!.
    + intros [Hgo Hw]. by rewrite (steps_game_over _ _ _ Hgo Hs).
    + intros [Hgo Hw]. by rewrite (steps_game_over _ _ _ Hgo Hs).
    + intros [[_ H1] [_ H2]]. congruence.
Qed.

(** The click on [(0, 0)] of the 4 by 4 game wins it: fifteen cells are
    revealed, none of them the mine; and the click on the mine [(0, 2)] of the
    1 by 5 game loses it. *)
Lemma win_iff_safe_cells_revealed_witness :
  (reachable (rng_seeded seed_corner) fresh_4x4 ∧
   revealed fresh_4x4 ## mines fresh_4x4 ∧
   reveal (rng_seeded seed_corner) fresh_4x4 0 0 = Ok won_4x4 ∧
   (0, 0) ∉ mines won_4x4) ∧
  (won won_4x4 = true ∧ game_over won_4x4 = true) ∧
  reachable (rng_seeded seed_row) row_opened ∧
  ∃ s', reveal (rng_seeded seed_row) row_opened 0 2 = Ok s' ∧
        won s' = false ∧ game_over s' = true ∧
        revealed s' = {[(0, 2)]} ∪ revealed row_opened.
Proof.
  assert (Hr : reachable (rng_seeded seed_corner) fresh_4x4)
    by exact (fresh_4x4_reachable _).
  assert (Hdis : revealed fresh_4x4 ## mines fresh_4x4).
  { intros p Hp. by apply not_elem_of_empty in Hp. }
  assert (Hcell : (0, 0) ∉ mines won_4x4) by (by vm_compute).
  assert (Hr2 : reachable (rng_seeded seed_row) row_opened)
    by exact (play_reachable _ _ _ _ row_opened_play).
  split; [split_and!; [exact Hr | exact Hdis | exact won_4x4_reveal | exact Hcell] |].
  split.
  - destruct (win_iff_safe_cells_revealed _ _ Hr) as (_ & _ & H & _).
    apply (H 0 0 won_4x4 Hdis won_4x4_reveal Hcell). by vm_compute.
  - split; [exact Hr2 |].
    destruct (win_iff_safe_cells_revealed _ _ Hr2) as (_ & _ & _ & H & _).
    apply H; by vm_compute.
Defined.

(** ** C3: construction and its guard *)

(** C3 as stated fails: [__init__] accepts a configuration whose [mines] is
    negative, although it is outside [[0, rows*cols)]. *)
Lemma init_accepts_negative_mines :
  ¬ ∀ c : GameConfig,
      wf_config c →
      ((∃ e, __init__ c = inr e) ↔
       ¬ (0 ≤ GameConfig.mines c < GameConfig.rows c * GameConfig.cols c)).
Proof.
  intros H. destruct (H cfg_negative) as [_ Hfail]; [by vm_compute |].
  destruct Hfail as [e He]; [cbn; lia |]. by vm_compute in He.
Qed.

(** C3, amended: construction raises (a [ValueError], and no engine exists
    then) exactly when [mines >= rows * cols]; otherwise it returns the engine
    with empty sets, a zero grid and the three flags false. *)
Theorem init_fails_iff (c : GameConfig) :
  (__init__ c = inr ValueError ↔
   GameConfig.mines c >= GameConfig.rows c * GameConfig.cols c) ∧
  (__init__ c = inl (Build_Minesweeper c ∅ (zero_grid c) ∅ ∅ false false false) ↔
   GameConfig.mines c < GameConfig.rows c * GameConfig.cols c) ∧
  (∀ e, __init__ c = inr e ↔
        e = ValueError ∧ GameConfig.mines c >= GameConfig.rows c * GameConfig.cols c).
Proof.
  unfold __init__. case_bool_decide as Hm.
  - split_and!.
    + by split.
    + split; [done | lia].
    + intros e. split; [by intros [= <-] | by intros [-> _]].
  - split_and!.
    + split; [done | lia].
    + split; [lia | done].
    + intros e. split; [done | intros [_ ?]; lia].
Qed.

(** ** C4: the adjacency grid counts the mines around each cell *)

Lemma mine_count_neighbors s r c :
  mines s ⊆ board (cfg s) →
  mine_count s r c
  = Z.of_nat (length (filter (λ p, p ∈ mines s) (neighbors (cfg s) r c))).
Proof.
  intros Hsub. unfold mine_count. f_equal.
  apply Permutation_length, NoDup_Permutation.
  - apply NoDup_elements.
  - apply NoDup_filter, NoDup_neighbors.
  - intros m. rewrite elem_of_elements, elem_of_filter, list_elem_of_filter,
      elem_of_neighbors. split; [| tauto].
    intros [Hc Hm]. split_and!; try done. apply elem_of_board. by apply Hsub.
Qed.

(** C4: in a reachable state with the mines placed, the entry of the grid at
    a cell of the board is the number of mines at Chebyshev distance 1 of it,
    which is the number of its [neighbors] that are mines. *)
Theorem adjacency_counts_mines (rng : Rng) (s : Minesweeper) (r c : Z) :
  reachable rng s → _mines_placed s = true → in_bounds (cfg s) r c = true →
  adj_get (adj s) r c = Some (mine_count s r c) ∧
  mine_count s r c
  = Z.of_nat (length (filter (λ p, p ∈ mines s) (neighbors (cfg s) r c))) ∧
  0 ≤ mine_count s r c ≤ 8.
Proof.
  intros Hr _ Hb. pose proof (reachable_inv _ _ Hr) as Hinv.
  pose proof (mine_count_neighbors s r c (inv_mines _ Hinv)) as Hn.
  split_and!; [by apply Hinv | done | lia |].
  rewrite Hn. pose proof (length_neighbors (cfg s) r c).
  pose proof (length_filter (λ p, p ∈ mines s) (neighbors (cfg s) r c)). lia.
Qed.

Lemma adjacency_counts_mines_witness :
  (reachable (rng_seeded seed_row) row_opened ∧ _mines_placed row_opened = true ∧
   in_bounds (cfg row_opened) 0 3 = true) ∧
  adj_get (adj row_opened) 0 3 = Some (mine_count row_opened 0 3) ∧
  mine_count row_opened 0 3 = 2.
Proof.
  assert (Hr : reachable (rng_seeded seed_row) row_opened)
    by exact (play_reachable _ _ _ _ row_opened_play).
  split; [split_and!; [exact Hr | reflexivity | reflexivity] |].
  split; [| by vm_compute].
  apply (adjacency_counts_mines _ row_opened 0 3 Hr eq_refl eq_refl).
Defined.

(** ** C5: a finished game ignores every call *)

(** C5: once [game_over] is set, [reveal] and [toggle_flag] at any coordinate
    return the engine unchanged, every field included. *)
Theorem terminal_calls_are_noops (rng : Rng) (s : Minesweeper) (r c : Z) :
  game_over s = true →
  reveal rng s r c = Ok s ∧ toggle_flag s r c = s.
Proof.
  intros Hgo. unfold reveal, toggle_flag. by rewrite Hgo.
Qed.

Lemma terminal_calls_are_noops_witness :
  reachable (rng_seeded seed_row) row_lost ∧ game_over row_lost = true ∧
  (reveal (rng_seeded seed_row) row_lost 0 3 = Ok row_lost ∧
   toggle_flag row_lost 0 3 = row_lost).
Proof.
  split; [exact (play_reachable _ _ _ _ row_lost_play) |].
  split; [reflexivity |].
  apply (terminal_calls_are_noops (rng_seeded seed_row) row_lost 0 3). reflexivity.
Defined.

(** ** C6: revealed and flagged cells *)

(** C6: in every reachable state no cell is both revealed and flagged;
    [toggle_flag] on a revealed cell and [reveal] on a flagged cell return the
    engine unchanged (so no placement happens and [game_over] stays). *)
Theorem revealed_flags_disjoint (rng : Rng) (s : Minesweeper) :
  reachable rng s →
  revealed s ## flags s ∧
  (∀ r c, (r, c) ∈ revealed s → toggle_flag s r c = s) ∧
  (∀ r c, (r, c) ∈ flags s → reveal rng s r c = Ok s).
Proof.
  intros Hr. split_and!.
  - by apply reachable_inv in Hr as [].
  - intros r c Hin. unfold toggle_flag.
    destruct (game_over s || negb (in_bounds (cfg s) r c)); [done |].
    by rewrite bool_decide_eq_true_2.
  - intros r c Hin. unfold reveal.
    destruct (game_over s || negb (in_bounds (cfg s) r c)); [done |].
    by rewrite bool_decide_eq_true_2.
Qed.

Lemma revealed_flags_disjoint_witness :
  reachable (rng_seeded seed_row) row_flagged ∧
  revealed row_flagged ## flags row_flagged ∧
  toggle_flag row_flagged 0 1 = row_flagged ∧
  reveal (rng_seeded seed_row) row_flagged 0 2 = Ok row_flagged.
Proof.
  assert (Hr : reachable (rng_seeded seed_row) row_flagged)
    by exact (play_reachable _ _ _ _ row_flagged_play).
  destruct (revealed_flags_disjoint _ _ Hr) as (H1 & H2 & H3).
  split_and!; [exact Hr | exact H1 | apply H2 | apply H3]; by vm_compute.
Defined.

(** ** C7: mine placement *)

(** C7 as stated fails: with [mines < 0], which [__init__] lets through,
    [rng.sample] raises and nothing is placed. *)
Lemma placement_raises_on_negative_mines :
  ¬ ∀ (rng : Rng) (c : GameConfig) (s : Minesweeper) (safe : Coord),
      wf_config c →
      GameConfig.mines c < GameConfig.rows c * GameConfig.cols c →
      __init__ c = inl s →
      ∃ s1, _place_mines_first_click_safe rng s safe = Ok s1.
Proof.
  intros H.
  destruct (H rng_take cfg_negative
              (Build_Minesweeper cfg_negative ∅ (zero_grid cfg_negative) ∅ ∅
                 false false false) (0, 0)) as [s1 Hs1];
    [by vm_compute | by vm_compute | reflexivity |].
  rewrite _place_mines_negative in Hs1 by (by vm_compute). done.
Qed.

(** C7, amended: on a configuration with [0 <= mines < rows * cols] placement
    returns for every safe cell (the fallback leaves enough candidates); the
    mine set then has exactly [mines] cells, all on the board and none the safe
    cell; and from a reachable state with the mines placed no sequence of
    calls changes the mine set. *)
Theorem placement_succeeds (rng : Rng) (s : Minesweeper) (safe : Coord) :
  wf_config (cfg s) →
  0 ≤ GameConfig.mines (cfg s) < GameConfig.rows (cfg s) * GameConfig.cols (cfg s) →
  (∃ s1, _place_mines_first_click_safe rng s safe = Ok s1 ∧
         _mines_placed s1 = true ∧
         Z.of_nat (size (mines s1)) = GameConfig.mines (cfg s) ∧
         safe ∉ mines s1 ∧ mines s1 ⊆ board (cfg s) ∧
         cfg s1 = cfg s ∧ revealed s1 = revealed s ∧ flags s1 = flags s ∧
         game_over s1 = game_over s ∧ won s1 = won s) ∧
  (∀ s' s'', reachable rng s' → _mines_placed s' = true → steps rng s' s'' →
     mines s'' = mines s' ∧ _mines_placed s'' = true ∧
     Z.of_nat (size (mines s')) = GameConfig.mines (cfg s')).
Proof.
  intros Hwf Hm. split.
  - destruct (_place_mines_spec rng s safe Hwf Hm)
      as (M & a & -> & Hsz & Hsafe & Hsub & _). eexists. split; [done |]. done.
  - intros s' s'' Hr Hp Hs. pose proof (reachable_inv _ _ Hr) as Hinv.
    destruct (steps_placed rng _ _ Hinv Hp Hs) as (-> & _ & _ & ->).
    split_and!; [done | done |]. by apply Hinv.
Qed.

Lemma placement_succeeds_witness :
  (wf_config (cfg row_opened) ∧
   0 ≤ GameConfig.mines (cfg row_opened)
     < GameConfig.rows (cfg row_opened) * GameConfig.cols (cfg row_opened)) ∧
  (∃ s1, _place_mines_first_click_safe (rng_seeded seed_row) row_opened (0, 3) = Ok s1 ∧
         Z.of_nat (size (mines s1)) = 2 ∧ (0, 3) ∉ mines s1) ∧
  (reachable (rng_seeded seed_row) row_opened ∧ _mines_placed row_opened = true ∧
   steps (rng_seeded seed_row) row_opened row_lost) ∧
  mines row_lost = mines row_opened.
Proof.
  assert (Hwf : wf_config (cfg row_opened)) by (by vm_compute).
  assert (Hm : 0 ≤ GameConfig.mines (cfg row_opened)
                 < GameConfig.rows (cfg row_opened) * GameConfig.cols (cfg row_opened))
    by (by vm_compute).
  assert (Hr : reachable (rng_seeded seed_row) row_opened)
    by exact (play_reachable _ _ _ _ row_opened_play).
  assert (Hs : steps (rng_seeded seed_row) row_opened row_lost).
  { apply (run_steps _ [Reveal 0 2]). vm_compute. reflexivity. }
  destruct (placement_succeeds (rng_seeded seed_row) row_opened (0, 3) Hwf Hm)
    as [(s1 & H1 & _ & H2 & H3 & _) Hfix].
  split; [by split |]. split; [by exists s1 |]. split; [by split_and! |].
  by apply (Hfix row_opened row_lost Hr eq_refl Hs).
Defined.

(** ** C8: toggling a flag twice *)

Lemma set_flags_back s X Y : Y = flags s → set_flags (set_flags s X) Y = s.
Proof. intros ->. by destruct s. Qed.

(** C8: on a live game and an unrevealed cell of the board, one
    [toggle_flag] flips the membership of the cell in [flags] and touches
    nothing else, and a second one gives back the engine of before. *)
Theorem toggle_flag_round_trip (s : Minesweeper) (r c : Z) :
  game_over s = false → in_bounds (cfg s) r c = true → (r, c) ∉ revealed s →
  toggle_flag (toggle_flag s r c) r c = s ∧
  ((r, c) ∈ flags (toggle_flag s r c) ↔ (r, c) ∉ flags s) ∧
  (∀ p, p ≠ (r, c) → p ∈ flags (toggle_flag s r c) ↔ p ∈ flags s) ∧
  toggle_flag s r c = set_flags s (flags (toggle_flag s r c)).
Proof.
  intros Hgo Hb Hr. unfold toggle_flag. rewrite Hgo, Hb. cbn [orb negb].
  rewrite bool_decide_eq_false_2 by done.
  destruct (decide ((r, c) ∈ flags s)) as [Hf | Hf].
  - rewrite (bool_decide_eq_true_2 _ Hf). cbn [game_over cfg revealed flags set_flags].
    rewrite Hgo, Hb. cbn [orb negb].
    rewrite bool_decide_eq_false_2 by done.
    rewrite bool_decide_eq_false_2 by set_solver.
    split_and!; [| set_solver | set_solver | done].
    apply set_flags_back.
    apply set_eq. intros p. rewrite elem_of_union, elem_of_difference, elem_of_singleton.
    destruct (decide (p = (r, c))) as [-> | ?]; tauto.
  - rewrite (bool_decide_eq_false_2 _ Hf). cbn [game_over cfg revealed flags set_flags].
    rewrite Hgo, Hb. cbn [orb negb].
    rewrite bool_decide_eq_false_2 by done.
    rewrite bool_decide_eq_true_2 by set_solver.
    split_and!; [| set_solver | set_solver | done].
    apply set_flags_back. set_solver.
Qed.

Lemma toggle_flag_round_trip_witness :
  (game_over row_opened = false ∧ in_bounds (cfg row_opened) 0 2 = true ∧
   (0, 2) ∉ revealed row_opened) ∧
  toggle_flag (toggle_flag row_opened 0 2) 0 2 = row_opened.
Proof.
  assert (H : (0, 2) ∉ revealed row_opened) by (by vm_compute).
  split; [split_and!; [reflexivity | reflexivity | exact H] |].
  apply (toggle_flag_round_trip row_opened 0 2 eq_refl eq_refl H).
Defined.

(** ** C9: the flood-reveal loop terminates *)

(** The frontier grows only when a cell with count zero has just been marked,
    and then only by cells that are not revealed. *)
Lemma flood_body_frontier s cell rest s' stack' :
  flood_body s cell rest = Ok (s', stack') →
  (stack' = rest ∧
   (s' = s ∨ (cell ∉ revealed s ∧ revealed s' = {[cell]} ∪ revealed s))) ∨
  (cell ∉ revealed s ∧ revealed s' = {[cell]} ∪ revealed s ∧
   adj_get (adj s) cell.1 cell.2 = Some 0 ∧
   ∃ new, stack' = new ++ rest ∧ ∀ p, p ∈ new → p ∉ revealed s').
Proof.
  unfold flood_body. destruct (flood_skips s cell) eqn:Hsk.
  { intros [= <- <-]. left. split; [done | by left]. }
  apply flood_skips_false in Hsk as [Hr _]. cbn [adj set_revealed].
  destruct (adj_get (adj s) cell.1 cell.2) as [a |]; [| done].
  case_bool_decide as Ha; intros [= <- <-].
  - right. subst a. split_and!; try done.
    rewrite flood_push_pushed. eexists. split; [done |].
    intros p Hp%elem_of_reverse%elem_of_pushed. tauto.
  - left. split; [done |]. right. done.
Qed.

(** C9 as stated fails: in the reachable state that [__init__] returns for a
    negative [mines], the first [reveal] of a cell of the board does not
    return, it raises from [rng.sample]. *)
Lemma reveal_raises_on_negative_mines :
  ¬ ∀ (rng : Rng) (s : Minesweeper) (r c : Z),
      wf_config (cfg s) → reachable rng s → ∃ s', reveal rng s r c = Ok s'.
Proof.
  intros H.
  destruct (H rng_take
              (Build_Minesweeper cfg_negative ∅ (zero_grid cfg_negative) ∅ ∅
                 false false false) 0 0) as [s' Hs'];
    [by vm_compute | by apply (reachable_init rng_take cfg_negative) |].
  by vm_compute in Hs'.
Qed.

(** C9, amended: from a reachable state and a cell of the board the work-list
    loop returns within its budget of [8 * rows * cols + 10] turns, whatever is
    added to it; it marks each cell at most once, only cells not yet revealed,
    at most [rows * cols] of them; a turn lengthens the stack only after
    marking a cell of count zero; the budget is enough from any starting cell
    whatever; a call of [reveal] that opens a cell that is no mine adds to
    [revealed] exactly the cells its loop marks, the clicked cell among them,
    each once; and [reveal] returns at every coordinate when [mines] is not
    negative, while with a negative [mines] it raises from [rng.sample] at
    every unflagged cell of the board. *)
Theorem flood_reveal_terminates (rng : Rng) (s : Minesweeper) :
  reachable rng s →
  (∀ r c, in_bounds (cfg s) r c = true →
     let marks := flood_marks (flood_fuel (cfg s)) s [(r, c)] in
     (∃ X, _flood_reveal s (r, c) = Ok (set_revealed s X) ∧
           (∀ extra, flood_loop (flood_fuel (cfg s) + extra) s [(r, c)]
                     = Ok (set_revealed s X)) ∧
           X = revealed s ∪ list_to_set marks) ∧
     NoDup marks ∧ (∀ p, p ∈ marks → p ∉ revealed s) ∧
     Z.of_nat (length marks) ≤ GameConfig.rows (cfg s) * GameConfig.cols (cfg s)) ∧
  (∀ st cell rest st' stack',
     flood_body st cell rest = Ok (st', stack') →
     (length rest < length stack')%nat →
     cell ∉ revealed st ∧ cell ∈ revealed st' ∧
     adj_get (adj st) cell.1 cell.2 = Some 0) ∧
  (∀ start,
     _flood_reveal s start ≠ OutOfFuel ∧
     ∀ extra, flood_loop (flood_fuel (cfg s) + extra) s [start]
              = _flood_reveal s start) ∧
  (∀ r c s',
     game_over s = false → in_bounds (cfg s) r c = true →
     (r, c) ∉ flags s → (r, c) ∉ revealed s →
     reveal rng s r c = Ok s' → (r, c) ∉ mines s' →
     ∃ s1,
       (if _mines_placed s then s1 = s
        else _place_mines_first_click_safe rng s (r, c) = Ok s1) ∧
       let marks := flood_marks (flood_fuel (cfg s1)) s1 [(r, c)] in
       _flood_reveal s1 (r, c)
       = Ok (set_revealed s1 (revealed s ∪ list_to_set marks)) ∧
       s' = _check_win (set_revealed s1 (revealed s ∪ list_to_set marks)) ∧
       (r, c) ∈ marks ∧ NoDup marks ∧ (∀ p, p ∈ marks → p ∉ revealed s) ∧
       Z.of_nat (length marks) ≤ GameConfig.rows (cfg s) * GameConfig.cols (cfg s)) ∧
  (0 ≤ GameConfig.mines (cfg s) → ∀ r c, ∃ s', reveal rng s r c = Ok s') ∧
  (GameConfig.mines (cfg s) < 0 →
   ∀ r c, in_bounds (cfg s) r c = true → (r, c) ∉ flags s →
          reveal rng s r c = Raise ValueError s).
Proof.
  intros Hr. pose proof (reachable_inv _ _ Hr) as Hinv. split_and!.
  - intros r c Hb marks.
    destruct (flood_loop_spec (flood_fuel (cfg s)) s [(r, c)]) as (X & HX & Hpost).
    { apply Hinv. } { by apply Forall_singleton. } { apply flood_measure_le. cbn. lia. }
    fold marks in Hpost. destruct Hpost. split_and!; try done.
    + exists X. split_and!; try done. intros extra.
      destruct (flood_loop_more (flood_fuel (cfg s)) s [(r, c)] extra) as [-> _];
        [by rewrite HX | done].
    + intros p Hp. by apply fp_fresh0.
    + assert (Hsz : (length marks ≤ size (board (cfg s)))%nat).
      { rewrite <- (size_list_to_set (C:=gset Coord) marks) by done.
        apply subseteq_size. intros p Hp%elem_of_list_to_set.
        apply elem_of_board. by apply fp_fresh0. }
      rewrite size_board in Hsz. apply in_bounds_spec in Hb. nia.
  - intros st cell rest st' stack' Hbody Hlen.
    destruct (flood_body_frontier _ _ _ _ _ Hbody)
      as [[-> _] | (Hnr & Hrev & Hadj & _)]; [lia |].
    split_and!; [done | | done]. rewrite Hrev. set_solver.
  - intros start. apply _flood_reveal_total, Hinv.
  - intros r c s' Hgo Hb Hf Hnr Hrev Hcell. revert Hrev Hcell.
    reveal_cases_of rng s r c Hinv; intros [= <-] Hcell.
    + destruct Hnoop as [? | [? | [? | ?]]]; congruence || done.
    + done.
    + destruct (check_win_fields (set_revealed s1 X)) as (_ & Em & _).
      pose proof (fp_marks _ _ _ _ Hpost) as HX. rewrite Hrev1 in HX.
      exists s1. split.
      { destruct (_mines_placed s); [done | by destruct Hs1]. }
      cbn zeta. rewrite <- HX. split_and!; try done.
      * destruct (fp_stack _ _ _ _ Hpost (r, c)) as [Hin | Hin]; [by left | |].
        -- rewrite HX in Hin. apply elem_of_union in Hin as [? | Hin]; [done |].
           by apply elem_of_list_to_set in Hin.
        -- by rewrite Hflags1 in Hin.
      * apply (fp_NoDup _ _ _ _ Hpost).
      * intros p Hp. rewrite <- Hrev1. by apply (fp_fresh _ _ _ _ Hpost).
      * assert (Hsz : (length (flood_marks (flood_fuel (cfg s1)) s1 [(r, c)])
                       ≤ size (board (cfg s1)))%nat).
        { rewrite <- (size_list_to_set (C:=gset Coord)) by apply (fp_NoDup _ _ _ _ Hpost).
          apply subseteq_size. intros p Hp%elem_of_list_to_set.
          apply elem_of_board. by apply (fp_fresh _ _ _ _ Hpost). }
        rewrite size_board in Hsz. rewrite <- Hcfg1 in Hb |- *.
        apply in_bounds_spec in Hb. nia.
  - intros Hm r c.
    reveal_cases_of rng s r c Hinv; [by eexists | lia | by eexists | by eexists].
  - intros Hm r c Hb Hf.
    assert (Hp : _mines_placed s = false).
    { destruct (_mines_placed s) eqn:E; [| done].
      pose proof (inv_placed _ Hinv E). lia. }
    destruct (inv_unplaced _ Hinv Hp) as (_ & Hr0 & Hgo).
    reveal_cases_of rng s r c Hinv.
    + destruct Hnoop as [? | [? | [? | Hin]]]; try congruence; try done.
      rewrite Hr0 in Hin. by apply not_elem_of_empty in Hin.
    + done.
    + congruence.
    + rewrite Hp in Hs1. lia.
Qed.

(** The click on [(0, 0)] of the 4 by 4 game: placement puts the mine on
    [(3, 3)] and the loop, started on the one cell, marks fifteen. *)
Lemma flood_reveal_terminates_witness :
  (reachable (rng_seeded seed_corner) fresh_4x4 ∧
   0 ≤ GameConfig.mines (cfg fresh_4x4) ∧
   game_over fresh_4x4 = false ∧ in_bounds (cfg fresh_4x4) 0 0 = true ∧
   (0, 0) ∉ flags fresh_4x4 ∧ (0, 0) ∉ revealed fresh_4x4 ∧
   reveal (rng_seeded seed_corner) fresh_4x4 0 0 = Ok won_4x4 ∧
   (0, 0) ∉ mines won_4x4) ∧
  (∃ s', reveal (rng_seeded seed_corner) fresh_4x4 0 0 = Ok s') ∧
  ∃ s1, _place_mines_first_click_safe (rng_seeded seed_corner) fresh_4x4 (0, 0) = Ok s1 ∧
        mines s1 = {[(3, 3)]} ∧
        NoDup (flood_marks (flood_fuel (cfg s1)) s1 [(0, 0)]) ∧
        length (flood_marks (flood_fuel (cfg s1)) s1 [(0, 0)]) = 15%nat ∧
        won_4x4 = _check_win
                    (set_revealed s1
                       (revealed fresh_4x4
                        ∪ list_to_set (flood_marks (flood_fuel (cfg s1)) s1 [(0, 0)]))).
Proof.
  assert (Hr : reachable (rng_seeded seed_corner) fresh_4x4)
    by exact (fresh_4x4_reachable _).
  assert (Hm : 0 ≤ GameConfig.mines (cfg fresh_4x4)) by (by vm_compute).
  assert (Hf : (0, 0) ∉ flags fresh_4x4) by (by vm_compute).
  assert (Hnr : (0, 0) ∉ revealed fresh_4x4) by (by vm_compute).
  assert (Hcell : (0, 0) ∉ mines won_4x4) by (by vm_compute).
  destruct (flood_reveal_terminates _ _ Hr) as (_ & _ & _ & Hflood & Hret & _).
  split; [by split_and! |]. split; [exact (Hret Hm 0 0) |].
  destruct (Hflood 0 0 won_4x4 eq_refl eq_refl Hf Hnr won_4x4_reveal Hcell)
    as (s1 & Hplace & _ & Hwon & _ & Hnd & _).
  cbn [_mines_placed fresh_4x4] in Hplace.
  exists s1. split; [exact Hplace |].
  split_and!; [| exact Hnd | | exact Hwon].
  - vm_compute in Hplace. injection Hplace as <-. reflexivity.
  - vm_compute in Hplace. injection Hplace as <-. vm_compute. reflexivity.
Defined.

(** ** C10: no mine is revealed while the game goes on *)

(** C10: in a reachable state of a live game no revealed cell is a mine; a
    call after which a mine is revealed that was not before is a call made
    on a live game that ends it with [won] false; and the flood started on a
    cell that is not a mine adds no mine to [revealed]. *)
Theorem no_mine_revealed_while_live (rng : Rng) (s : Minesweeper) :
  reachable rng s →
  (game_over s = false → revealed s ## mines s) ∧
  (∀ o s' p, step rng s o = Some s' →
     p ∈ mines s' → p ∈ revealed s' → p ∉ revealed s →
     game_over s = false ∧ game_over s' = true ∧ won s' = false ∧
     o = Reveal p.1 p.2) ∧
  (∀ r c, in_bounds (cfg s) r c = true → (r, c) ∉ mines s →
     ∃ X, _flood_reveal s (r, c) = Ok (set_revealed s X) ∧
          (X ∖ revealed s) ## mines s).
Proof.
  intros Hr. pose proof (reachable_inv _ _ Hr) as Hinv. split_and!.
  - by apply Hinv.
  - intros o s' p Hstep Hm Hin Hnin. destruct o as [r c | r c]; cbn in Hstep.
    + reveal_cases_of rng s r c Hinv; cbn in Hstep; injection Hstep as <-;
        try done.
      * cbn in *. apply elem_of_union in Hin as [->%elem_of_singleton | ?]; done.
      * exfalso.
        destruct (check_win_fields (set_revealed s1 X)) as (_ & Em & _ & Er & _).
        rewrite Em in Hm. rewrite Er in Hin. cbn in Hm, Hin.
        rewrite (fp_marks _ _ _ _ Hpost), Hrev1 in Hin.
        apply elem_of_union in Hin as [? | Hin%elem_of_list_to_set]; [done |].
        apply (fp_safe _ _ _ _ Hpost) in Hin; [done |].
        by intros q ->%list_elem_of_singleton.
    + injection Hstep as <-.
      destruct (toggle_flag_fields s r c) as (_ & _ & _ & Er & _).
      rewrite Er in Hin. done.
  - intros r c Hb Hm.
    destruct (flood_loop_spec (flood_fuel (cfg s)) s [(r, c)]) as (X & HX & Hpost).
    { apply Hinv. } { by apply Forall_singleton. } { apply flood_measure_le. cbn. lia. }
    exists X. split; [done |]. destruct Hpost.
    intros p [Hp Hnp]%elem_of_difference Hpm. rewrite fp_marks0 in Hp.
    apply elem_of_union in Hp as [? | Hp%elem_of_list_to_set]; [done |].
    apply fp_safe0 in Hp; [done |]. by intros q ->%list_elem_of_singleton.
Qed.

Lemma no_mine_revealed_while_live_witness :
  reachable (rng_seeded seed_row) row_opened ∧
  revealed row_opened ## mines row_opened ∧
  (game_over row_opened = false ∧ game_over row_lost = true ∧ won row_lost = false).
Proof.
  assert (Hr : reachable (rng_seeded seed_row) row_opened)
    by exact (play_reachable _ _ _ _ row_opened_play).
  destruct (no_mine_revealed_while_live _ _ Hr) as (Hlive & Hstep & _).
  split; [exact Hr |]. split; [by apply Hlive |].
  destruct (Hstep (Reveal 0 2) row_lost (0, 2)) as (H1 & H2 & H3 & _);
    [by vm_compute .. |]. by split_and!.
Defined.


(** * Further properties of the engine *)

(** ** Definitions *)



(** The forbidden zone of [_place_mines_first_click_safe]. *)
Definition forbidden_zone (c : GameConfig) (safe : Coord) : gset Coord :=
  list_to_set (neighbors c safe.1 safe.2) ∪ {[safe]}.

(** The first candidate pool of [_place_mines_first_click_safe]. *)
Definition primary_pool (c : GameConfig) (safe : Coord) : list Coord :=
  filter (λ p, p ∉ forbidden_zone c safe) (all_cells c).

(** What [toggle_flag] makes of the flags when it acts. *)
Definition toggled (F : gset Coord) (cell : Coord) : gset Coord :=
  if bool_decide (cell ∈ F) then F ∖ {[cell]} else {[cell]} ∪ F.

(** The 4 by 4 engine after the placement that a click on [(1, 1)] triggers
    under [seed_corner]. *)
Definition placed_4x4 : Minesweeper :=
  Build_Minesweeper cfg_4x4 {[(3, 1)]}
    [[0; 0; 0; 0]; [0; 0; 0; 0]; [1; 1; 1; 0]; [1; 0; 1; 0]] ∅ ∅ true false false.

(** ** X1, X2: the neighbourhood *)

(** X1: [neighbors(r, c)] lists, without repetition, exactly the cells of the
    board at Chebyshev distance 1 of [(r, c)], in the scan order of the 3 by 3
    block; [(r, c)] is never among them, and between two cells of the board
    the relation is symmetric. *)
Theorem neighbors_characterised (c : GameConfig) (r k : Z) :
  (∀ p, p ∈ neighbors c r k ↔ in_bounds c p.1 p.2 = true ∧ chebyshev1 p (r, k)) ∧
  NoDup (neighbors c r k) ∧
  neighbors c r k = filter (λ p, in_bounds c p.1 p.2 = true) (around r k) ∧
  (r, k) ∉ neighbors c r k ∧
  (∀ r' k', (r', k') ∈ neighbors c r k ∧ in_bounds c r k = true ↔
            (r, k) ∈ neighbors c r' k' ∧ in_bounds c r' k' = true).
Proof.
  split_and!.
  - intros p. apply elem_of_neighbors.
  - apply NoDup_neighbors.
  - apply neighbors_around.
  - apply neighbors_not_self.
  - intros r' k'. rewrite !elem_of_neighbors. unfold chebyshev1. cbn.
    split; intros [[Hb Hd] Hb']; (split_and!; [done | lia | done]).
Qed.


(** The counts on the second preset: inside, on an edge, in a corner, and off
    the board next to a corner. *)
Example neighbors_count_preset :
  ∃ c, DIFFICULTIES 2 = Some c ∧
       length (neighbors c 4 7) = 8%nat ∧ length (neighbors c 0 7) = 5%nat ∧
       length (neighbors c 8 13) = 3%nat ∧ length (neighbors c (-1) (-1)) = 1%nat.
Proof. eexists. split; [reflexivity |]. by vm_compute. Qed.

(** ** X3: the pool of the placement *)

Lemma length_filter_not_in (F : gset Coord) (l : list Coord) :
  NoDup l → (length l ≤ length (filter (λ p, p ∉ F) l) + size F)%nat.
Proof.
  intros Hnd.
  assert (Hin : (length (filter (λ p, p ∈ F) l) ≤ size F)%nat).
  { rewrite <- (size_list_to_set (C:=gset Coord)) by by apply NoDup_filter.
    apply subseteq_size. intros p Hp%elem_of_list_to_set.
    by apply list_elem_of_filter in Hp as [? _]. }
  assert (Hsum : length l
                 = (length (filter (λ p, p ∈ F) l) + length (filter (λ p, p ∉ F) l))%nat).
  { clear. induction l as [| y l IH]; [done |]. rewrite !filter_cons.
    destruct (decide (y ∈ F)); destruct (decide (y ∉ F)); try done; cbn; lia. }
  lia.
Qed.

Lemma size_forbidden_zone c safe : (size (forbidden_zone c safe) ≤ 9)%nat.
Proof.
  unfold forbidden_zone. rewrite size_union_alt.
  rewrite size_list_to_set by apply NoDup_neighbors.
  pose proof (length_neighbors c safe.1 safe.2).
  pose proof (subseteq_size ({[safe]} ∖ list_to_set (neighbors c safe.1 safe.2))
                ({[safe]} : gset Coord)) as Hs.
  rewrite size_singleton in Hs. specialize (Hs ltac:(set_solver)). lia.
Qed.

Lemma primary_pool_length c safe :
  wf_config c →
  GameConfig.rows c * GameConfig.cols c - 9 ≤ Z.of_nat (length (primary_pool c safe)).
Proof.
  intros Hwf. pose proof (cells_count c Hwf) as Hn.
  pose proof (length_filter_not_in (forbidden_zone c safe) _ (NoDup_all_cells c)) as Hl.
  pose proof (size_forbidden_zone c safe). unfold primary_pool. lia.
Qed.

(** Placement from a primary pool that is large enough. *)
Lemma _place_mines_primary rng s safe :
  0 ≤ GameConfig.mines (cfg s) ≤ Z.of_nat (length (primary_pool (cfg s) safe)) →
  ∃ M a,
    _place_mines_first_click_safe rng s safe
      = Ok (set_mines_placed (set_adj (set_mines s M) a) true) ∧
    M ## forbidden_zone (cfg s) safe ∧ M ⊆ board (cfg s) ∧
    ∀ r k, in_bounds (cfg s) r k = true →
           adj_get a r k = Some (mine_count (set_mines s M) r k).
Proof.
  intros Hm. unfold _place_mines_first_click_safe.
  fold (forbidden_zone (cfg s) safe). fold (primary_pool (cfg s) safe).
  rewrite bool_decide_eq_false_2 by lia.
  assert (Hnd : NoDup (primary_pool (cfg s) safe)) by apply NoDup_filter, NoDup_all_cells.
  destruct (sample rng (primary_pool (cfg s) safe) (GameConfig.mines (cfg s)))
    as [picked |] eqn:Hs; cycle 1.
  { unfold sample in Hs. rewrite bool_decide_eq_true_2 in Hs by lia. done. }
  destruct (sample_spec _ _ _ _ Hnd Hs) as (_ & _ & Hsub).
  destruct (_recompute_adjacency_spec (set_mines s (list_to_set picked)))
    as (a & -> & _ & Hadj).
  exists (list_to_set picked), a. split_and!; [done | | | done].
  - intros p Hp%elem_of_list_to_set Hf. apply Hsub in Hp.
    by apply list_elem_of_filter in Hp as [? _].
  - intros p Hp%elem_of_list_to_set. apply Hsub in Hp.
    apply list_elem_of_filter in Hp as [_ Hp]. unfold board.
    by apply elem_of_list_to_set.
Qed.

(** No mine around a cell: its count is zero. *)
Lemma mine_count_zero s r c :
  (∀ p, p ∈ mines s → ¬ chebyshev1 p (r, c)) → mine_count s r c = 0.
Proof.
  intros Hno. unfold mine_count.
  assert (filter (λ m, chebyshev1 m (r, c)) (mines s) = ∅) as ->; [| by rewrite size_empty].
  apply set_eq. intros p. rewrite elem_of_filter. split; [| by intros ?%not_elem_of_empty].
  intros [Hc Hp]. by destruct (Hno p Hp).
Qed.

(** A count of zero: no mine around the cell. *)
Lemma mine_count_zero_inv s r c p :
  mine_count s r c = 0 → chebyshev1 p (r, c) → p ∉ mines s.
Proof.
  unfold mine_count. intros Hz Hc Hp.
  assert (Hsz : size (filter (λ m, chebyshev1 m (r, c)) (mines s)) = 0%nat) by lia.
  apply size_empty_iff in Hsz. apply (not_elem_of_empty (C:=gset Coord) p).
  rewrite <- Hsz. by apply elem_of_filter.
Qed.

(** A placement on a board with nine cells to spare. *)
Lemma _place_mines_spares (rng : Rng) (s s1 : Minesweeper) (safe : Coord) :
  wf_config (cfg s) →
  GameConfig.mines (cfg s) ≤ GameConfig.rows (cfg s) * GameConfig.cols (cfg s) - 9 →
  _place_mines_first_click_safe rng s safe = Ok s1 →
  GameConfig.mines (cfg s) ≤ Z.of_nat (length (primary_pool (cfg s) safe)) ∧
  safe ∉ mines s1 ∧
  (∀ nb, nb ∈ neighbors (cfg s) safe.1 safe.2 → nb ∉ mines s1) ∧
  (in_bounds (cfg s) safe.1 safe.2 = true → adj_get (adj s1) safe.1 safe.2 = Some 0).
Proof.
  intros Hwf Hm Hplace. pose proof (primary_pool_length _ safe Hwf) as Hpool.
  assert (H0 : 0 ≤ GameConfig.mines (cfg s)).
  { destruct (decide (GameConfig.mines (cfg s) < 0)) as [Hneg |]; [| lia].
    by rewrite _place_mines_negative in Hplace. }
  destruct (_place_mines_primary rng s safe ltac:(lia)) as (M & a & E & Hdis & Hsub & Hadj).
  rewrite E in Hplace. injection Hplace as <-. cbn [mines adj set_mines_placed set_adj set_mines].
  split_and!; [lia | | |].
  - intros Hin. apply (Hdis safe Hin). unfold forbidden_zone.
    apply elem_of_union. right. by apply elem_of_singleton.
  - intros nb Hnb Hin. apply (Hdis nb Hin). unfold forbidden_zone.
    apply elem_of_union. left. by apply elem_of_list_to_set.
  - intros Hb. rewrite (Hadj _ _ Hb). f_equal. apply mine_count_zero.
    cbn [mines set_mines]. intros p Hp Hc. apply (Hdis p Hp).
    unfold forbidden_zone. apply elem_of_union. left. apply elem_of_list_to_set.
    apply elem_of_neighbors. split; [| by destruct safe].
    apply elem_of_board. by apply Hsub.
Qed.

(** X3: the primary pool of the placement misses at most the 9 cells of the
    forbidden zone; on a board with [mines <= rows * cols - 9] it holds
    [mines] cells, and a placement that returns has put no mine on the safe
    cell or on a neighbour of it, so the count of the safe cell is zero. *)
Theorem placement_spares_neighbourhood (rng : Rng) (s s1 : Minesweeper) (safe : Coord) :
  wf_config (cfg s) →
  GameConfig.mines (cfg s) ≤ GameConfig.rows (cfg s) * GameConfig.cols (cfg s) - 9 →
  _place_mines_first_click_safe rng s safe = Ok s1 →
  GameConfig.mines (cfg s) ≤ Z.of_nat (length (primary_pool (cfg s) safe)) ∧
  safe ∉ mines s1 ∧
  (∀ nb, nb ∈ neighbors (cfg s) safe.1 safe.2 → nb ∉ mines s1) ∧
  (in_bounds (cfg s) safe.1 safe.2 = true → adj_get (adj s1) safe.1 safe.2 = Some 0).
Proof. apply _place_mines_spares. Qed.

Lemma placement_spares_neighbourhood_witness :
  (wf_config (cfg fresh_4x4) ∧
   GameConfig.mines (cfg fresh_4x4)
   ≤ GameConfig.rows (cfg fresh_4x4) * GameConfig.cols (cfg fresh_4x4) - 9 ∧
   _place_mines_first_click_safe (rng_seeded seed_corner) fresh_4x4 (1, 1)
   = Ok placed_4x4) ∧
  (1, 1) ∉ mines placed_4x4 ∧ adj_get (adj placed_4x4) 1 1 = Some 0.
Proof.
  assert (Hwf : wf_config (cfg fresh_4x4)) by (by vm_compute).
  assert (Hm : GameConfig.mines (cfg fresh_4x4)
               ≤ GameConfig.rows (cfg fresh_4x4) * GameConfig.cols (cfg fresh_4x4) - 9)
    by (by vm_compute).
  assert (Hp : _place_mines_first_click_safe (rng_seeded seed_corner) fresh_4x4 (1, 1)
               = Ok placed_4x4) by (vm_compute; reflexivity).
  split; [split_and!; [exact Hwf | exact Hm | exact Hp] |].
  destruct (placement_spares_neighbourhood _ _ _ _ Hwf Hm Hp) as (_ & H1 & _ & H2).
  split; [exact H1 | by apply H2].
Defined.

(** ** X4, X5: what a click opens *)

(** A run of the loop marks only cells of its stack and neighbours of marked
    cells of count zero, and ends with every unflagged, unmined neighbour of
    such a cell revealed. *)
Lemma flood_loop_region fuel : ∀ s stack s',
  grid_shape (cfg s) (adj s) →
  Forall (λ p, in_bounds (cfg s) p.1 p.2 = true) stack →
  (flood_measure s stack < fuel)%nat →
  flood_loop fuel s stack = Ok s' →
  ∀ p, p ∈ flood_marks fuel s stack →
    (p ∈ stack ∨
     ∃ q, q ∈ flood_marks fuel s stack ∧ adj_get (adj s) q.1 q.2 = Some 0 ∧
          p ∈ neighbors (cfg s) q.1 q.2) ∧
    (adj_get (adj s) p.1 p.2 = Some 0 →
     ∀ nb, nb ∈ neighbors (cfg s) p.1 p.2 → nb ∉ mines s → nb ∉ flags s →
           nb ∈ revealed s').
Proof.
  induction fuel as [| fuel IH]; intros s stack s' Hs Hst Hfuel Hrun p Hp; [lia |].
  destruct stack as [| cell rest]; [by apply elem_of_nil in Hp |].
  apply Forall_cons in Hst as [Hb Hrest].
  unfold flood_measure in Hfuel. cbn [length] in Hfuel.
  cbn [flood_loop flood_marks] in Hrun, Hp |- *.
  destruct (flood_body_cases s cell rest Hs Hb)
    as [[Hsk E] | [(Hsk & Hadj & E) | (Hsk & Hadj & E)]];
    rewrite E in Hrun, Hp |- *; rewrite Hsk in Hp |- *;
    cbn [res_bind fst snd app] in Hrun, Hp |- *.
  - (* skipped *)
    destruct (IH s rest s' Hs Hrest ltac:(unfold flood_measure; lia) Hrun p Hp)
      as [[Hin | Hq] Hcl].
    + split; [left; by right | done].
    + split; [by right | done].
  - (* marked, a number on the cell *)
    apply flood_skips_false in Hsk as [Hr Hf].
    set (s1 := set_revealed s ({[cell]} ∪ revealed s)) in *.
    assert (Hm1 : (flood_measure s1 rest < fuel)%nat).
    { unfold flood_measure. pose proof (size_unrevealed_mark s cell Hb Hr).
      cbn [cfg revealed s1 set_revealed]. lia. }
    apply elem_of_cons in Hp as [-> | Hp].
    + split; [left; by left | congruence].
    + destruct (IH s1 rest s' Hs Hrest Hm1 Hrun p Hp) as [[Hin | (q & Hq & Hq0 & Hpq)] Hcl].
      * split; [left; by right | done].
      * split; [| done]. right. exists q. split_and!; [by right | done | done].
  - (* marked, an empty cell *)
    apply flood_skips_false in Hsk as [Hr Hf].
    set (s1 := set_revealed s ({[cell]} ∪ revealed s)) in *.
    assert (Hst1 : Forall (λ p, in_bounds (cfg s1) p.1 p.2 = true)
                     (reverse (pushed s1 cell) ++ rest)).
    { apply Forall_app. split; [| done]. apply Forall_forall.
      intros q Hq%elem_of_reverse%elem_of_pushed. tauto. }
    assert (Hm1 : (flood_measure s1 (reverse (pushed s1 cell) ++ rest) < fuel)%nat).
    { unfold flood_measure. pose proof (size_unrevealed_mark s cell Hb Hr).
      pose proof (length_pushed s1 cell).
      rewrite length_app, length_reverse. cbn [cfg revealed s1 set_revealed]. lia. }
    destruct (flood_loop_spec fuel s1 _ Hs Hst1 Hm1) as (X & HX & Hpost).
    rewrite HX in Hrun. injection Hrun as <-.
    apply elem_of_cons in Hp as [-> | Hp].
    + split; [left; by left |]. intros _ nb Hnb Hnm Hnf.
      cbn [revealed set_revealed].
      destruct (decide (nb ∈ revealed s1)) as [Hin | Hnin].
      * rewrite (fp_marks _ _ _ _ Hpost). apply elem_of_union. by left.
      * destruct (fp_stack _ _ _ _ Hpost nb) as [? | ?]; [| done | done].
        apply elem_of_app. left. apply elem_of_reverse, elem_of_pushed.
        apply elem_of_neighbors in Hnb as [? ?]. by destruct cell.
    + destruct (IH s1 _ _ Hs Hst1 Hm1 HX p Hp) as [[Hin | (q & Hq & Hq0 & Hpq)] Hcl].
      * split; [| done].
        apply elem_of_app in Hin as [Hin%elem_of_reverse%elem_of_pushed | Hin].
        -- right. exists cell. split_and!; [by left | done |].
           apply elem_of_neighbors. destruct cell. tauto.
        -- left. by right.
      * split; [| done]. right. exists q. split_and!; [by right | done | done].
Qed.

(** X5: what a call of [reveal] that returns adds to [revealed] from a
    reachable state: besides the clicked cell, only cells next to a newly
    revealed cell that is no mine and has count zero; and around every newly
    revealed cell of count zero that is no mine, every unflagged cell ends
    revealed and none is a mine.  The flags are as before. *)
Theorem reveal_opens_region (rng : Rng) (s s' : Minesweeper) (r c : Z) :
  reachable rng s → reveal rng s r c = Ok s' →
  flags s' = flags s ∧
  (∀ p, p ∈ revealed s' → p ∉ revealed s →
     p = (r, c) ∨
     ∃ q, q ∈ revealed s' ∧ q ∉ revealed s ∧ q ∉ mines s' ∧
          adj_get (adj s') q.1 q.2 = Some 0 ∧ chebyshev1 p q) ∧
  (∀ p nb, p ∈ revealed s' → p ∉ revealed s → p ∉ mines s' →
     adj_get (adj s') p.1 p.2 = Some 0 →
     nb ∈ neighbors (cfg s') p.1 p.2 → nb ∉ flags s' →
     nb ∈ revealed s' ∧ nb ∉ mines s').
Proof.
  intros Hr Hrev. pose proof (reachable_inv _ _ Hr) as Hinv.
  reveal_cases_of rng s r c Hinv; try done; injection Hrev as <-.
  - split_and!; [done | intros p Hp Hn; done | intros p nb Hp Hn; done].
  - cbn. split_and!; [done | |].
    + intros p [->%elem_of_singleton | ?]%elem_of_union Hn; [by left | done].
    + intros p nb [->%elem_of_singleton | ?]%elem_of_union Hn; done.
  - destruct (check_win_fields (set_revealed s1 X)) as (-> & -> & -> & -> & -> & _).
    cbn [cfg mines adj revealed flags set_revealed].
    pose proof (fp_marks _ _ _ _ Hpost) as HXm.
    assert (Hmarks : ∀ p, p ∈ X → p ∉ revealed s →
              p ∈ flood_marks (flood_fuel (cfg s1)) s1 [(r, c)]).
    { intros p Hp Hn. rewrite HXm, Hrev1 in Hp.
      apply elem_of_union in Hp as [? | Hp%elem_of_list_to_set]; done. }
    assert (Hreg := flood_loop_region (flood_fuel (cfg s1)) s1 [(r, c)] _
              (inv_shape _ Hinv1)
              ltac:(apply Forall_singleton; by rewrite Hcfg1)
              ltac:(apply flood_measure_le; cbn; lia) Hflood).
    cbn [revealed set_revealed] in Hreg.
    assert (Hnew : ∀ q, q ∈ flood_marks (flood_fuel (cfg s1)) s1 [(r, c)] →
              q ∈ X ∧ q ∉ revealed s ∧ q ∉ mines s1).
    { intros q Hq. split_and!.
      - rewrite HXm. apply elem_of_union. right. by apply elem_of_list_to_set.
      - rewrite <- Hrev1. by apply (fp_fresh _ _ _ _ Hpost).
      - apply (fp_safe _ _ _ _ Hpost); [| done].
        by intros ? ->%list_elem_of_singleton. }
    split_and!; [done | |].
    + intros p Hp Hn. destruct (Hreg p (Hmarks p Hp Hn)) as [[Hin | (q & Hq & Hq0 & Hpq)] _].
      * left. by apply list_elem_of_singleton in Hin.
      * right. exists q. destruct (Hnew q Hq) as (? & ? & ?).
        split_and!; try done. by apply elem_of_neighbors in Hpq as [_ ?].
    + intros p nb Hp Hn Hpm Hp0 Hnb Hnf.
      pose proof (Hmarks p Hp Hn) as Hpmark.
      assert (Hpb : in_bounds (cfg s1) p.1 p.2 = true)
        by by apply (fp_fresh _ _ _ _ Hpost).
      assert (Hnm : nb ∉ mines s1).
      { rewrite (inv_adj _ Hinv1 _ _ Hpb) in Hp0. injection Hp0 as Hp0.
        apply (mine_count_zero_inv s1 p.1 p.2 nb Hp0).
        apply elem_of_neighbors in Hnb as [_ ?]. by destruct p. }
      split; [| done]. destruct (Hreg p Hpmark) as [_ Hcl]. by apply Hcl.
Qed.

Lemma reveal_opens_region_witness :
  (reachable (rng_seeded seed_corner) fresh_4x4 ∧
   reveal (rng_seeded seed_corner) fresh_4x4 0 0 = Ok won_4x4) ∧
  flags won_4x4 = flags fresh_4x4 ∧
  ((1, 1) ∈ revealed won_4x4 ∧ (1, 1) ∉ mines won_4x4).
Proof.
  pose proof (fresh_4x4_reachable (rng_seeded seed_corner)) as Hr.
  split; [split; [exact Hr | exact won_4x4_reveal] |].
  destruct (reveal_opens_region _ _ _ _ _ Hr won_4x4_reveal) as (Hf & _ & Hcl).
  split; [exact Hf |].
  apply (Hcl (0, 0) (1, 1));
    [by vm_compute | by vm_compute | by vm_compute | reflexivity | | by vm_compute].
  apply elem_of_neighbors. split; [reflexivity | by vm_compute].
Defined.

(** X4: on a board with [0 <= mines <= rows * cols - 9], the first click, on
    any unflagged cell of the board, returns with the clicked cell revealed
    and of count zero, with no mine on it or around it, with every unflagged
    cell around it revealed, and with the game over only if it is won. *)
Theorem first_click_opens_neighbourhood (rng : Rng) (s : Minesweeper) (r c : Z) :
  reachable rng s → _mines_placed s = false →
  in_bounds (cfg s) r c = true → (r, c) ∉ flags s →
  0 ≤ GameConfig.mines (cfg s)
    ≤ GameConfig.rows (cfg s) * GameConfig.cols (cfg s) - 9 →
  ∃ s', reveal rng s r c = Ok s' ∧
        (r, c) ∈ revealed s' ∧ (r, c) ∉ mines s' ∧
        adj_get (adj s') r c = Some 0 ∧
        (∀ nb, nb ∈ neighbors (cfg s) r c →
               nb ∉ mines s' ∧ (nb ∉ flags s → nb ∈ revealed s')) ∧
        (game_over s' = true → won s' = true).
Proof.
  intros Hr Hunpl Hb Hnf Hm. pose proof (reachable_inv _ _ Hr) as Hinv.
  destruct (inv_unplaced _ Hinv Hunpl) as (_ & Hrev0 & Hgo).
  reveal_cases_of rng s r c Hinv.
  - exfalso. destruct Hnoop as [? | [? | [? | Hin]]]; try congruence; try done.
    rewrite Hrev0 in Hin. by apply not_elem_of_empty in Hin.
  - lia.
  - congruence.
  - rewrite Hunpl in Hs1. destruct Hs1 as [_ Hplace].
    destruct (_place_mines_spares rng s s1 (r, c)) as (_ & _ & Hnbs & Hadj0);
      [by eapply in_bounds_wf | lia | done |].
    specialize (Hadj0 Hb). cbn [fst snd] in Hadj0, Hnbs.
    exists (_check_win (set_revealed s1 X)). split; [done |].
    destruct (check_win_fields (set_revealed s1 X)) as (_ & -> & -> & -> & _ & _).
    cbn [mines adj revealed set_revealed].
    assert (Hin : (r, c) ∈ X).
    { destruct (fp_stack _ _ _ _ Hpost (r, c)) as [? | Hf]; [by left | done |].
      by rewrite Hflags1 in Hf. }
    assert (Hmark : (r, c) ∈ flood_marks (flood_fuel (cfg s1)) s1 [(r, c)]).
    { rewrite (fp_marks _ _ _ _ Hpost), Hrev1, Hrev0 in Hin.
      apply elem_of_union in Hin as [Hin | Hin%elem_of_list_to_set]; [| done].
      by apply not_elem_of_empty in Hin. }
    assert (Hreg := flood_loop_region (flood_fuel (cfg s1)) s1 [(r, c)] _
              (inv_shape _ Hinv1)
              ltac:(apply Forall_singleton; by rewrite Hcfg1)
              ltac:(apply flood_measure_le; cbn; lia) Hflood (r, c) Hmark).
    destruct Hreg as [_ Hcl]. cbn [fst snd revealed set_revealed] in Hcl.
    split_and!; [done | done | done | |].
    + intros nb Hnb. split; [by apply Hnbs |]. intros Hnbf.
      apply (Hcl Hadj0 nb); [by rewrite Hcfg1 | by apply Hnbs | by rewrite Hflags1].
    + unfold _check_win. case_bool_decide; cbn; [done |]. congruence.
Qed.

Lemma first_click_opens_neighbourhood_witness :
  (reachable (rng_seeded seed_corner) fresh_4x4 ∧ _mines_placed fresh_4x4 = false ∧
   in_bounds (cfg fresh_4x4) 1 1 = true ∧ (1, 1) ∉ flags fresh_4x4 ∧
   0 ≤ GameConfig.mines (cfg fresh_4x4)
     ≤ GameConfig.rows (cfg fresh_4x4) * GameConfig.cols (cfg fresh_4x4) - 9) ∧
  ∃ s', reveal (rng_seeded seed_corner) fresh_4x4 1 1 = Ok s' ∧
        (1, 1) ∈ revealed s' ∧ adj_get (adj s') 1 1 = Some 0.
Proof.
  pose proof (fresh_4x4_reachable (rng_seeded seed_corner)) as Hr.
  assert (Hf : (1, 1) ∉ flags fresh_4x4) by (by vm_compute).
  assert (Hm : 0 ≤ GameConfig.mines (cfg fresh_4x4)
                 ≤ GameConfig.rows (cfg fresh_4x4) * GameConfig.cols (cfg fresh_4x4) - 9)
    by (by vm_compute).
  split.
  { split; [exact Hr |]. split; [reflexivity |]. split; [reflexivity |].
    split; [exact Hf | exact Hm]. }
  destruct (first_click_opens_neighbourhood _ _ 1 1 Hr eq_refl eq_refl Hf Hm)
    as (s' & H1 & H2 & _ & H3 & _).
  exists s'. by split_and!.
Defined.

(** ** X6: what a command leaves alone *)

Lemma step_frame rng s o t :
  inv s → step rng s o = Some t →
  cfg t = cfg s ∧ revealed s ⊆ revealed t ∧
  match o with
  | Reveal _ _ => flags t = flags s
  | ToggleFlag _ _ =>
      revealed t = revealed s ∧ mines t = mines s ∧ adj t = adj s ∧
      _mines_placed t = _mines_placed s ∧ game_over t = game_over s ∧ won t = won s
  end.
Proof.
  intros Hinv. destruct o as [r c | r c]; cbn.
  - reveal_cases_of rng s r c Hinv; cbn; intros [= <-]; try done.
    + split_and!; [done | | done]. cbn. apply union_subseteq_r.
    + destruct (check_win_fields (set_revealed s1 X)) as (-> & _ & _ & -> & -> & _).
      cbn. split_and!; [done | | done].
      rewrite (fp_marks _ _ _ _ Hpost), Hrev1. apply union_subseteq_l.
  - intros [= <-].
    destruct (toggle_flag_fields s r c) as (-> & -> & -> & -> & -> & -> & ->). done.
Qed.

(** X6: from a reachable state no command changes the configuration or takes
    a cell out of [revealed]; [reveal] leaves the flags as they are, and
    [toggle_flag] leaves everything but the flags; so along any sequence of
    commands the configuration stays and [revealed] only grows. *)
Theorem commands_frame (rng : Rng) (s : Minesweeper) :
  reachable rng s →
  (∀ o s1, step rng s o = Some s1 →
     cfg s1 = cfg s ∧ revealed s ⊆ revealed s1 ∧
     match o with
     | Reveal _ _ => flags s1 = flags s
     | ToggleFlag _ _ =>
         revealed s1 = revealed s ∧ mines s1 = mines s ∧ adj s1 = adj s ∧
         _mines_placed s1 = _mines_placed s ∧ game_over s1 = game_over s ∧
         won s1 = won s
     end) ∧
  (∀ s', steps rng s s' → cfg s' = cfg s ∧ revealed s ⊆ revealed s').
Proof.
  intros Hr. pose proof (reachable_inv _ _ Hr) as Hinv. split.
  - intros o s1. by apply step_frame.
  - intros s' Hs. clear Hr. induction Hs as [| s o s1 s2 Hstep _ IH]; [done |].
    destruct (step_frame _ _ _ _ Hinv Hstep) as (Hc & Hsub & _).
    destruct IH as [-> Hsub2]; [by eapply inv_step |]. split; [done |].
    by etrans.
Qed.

Lemma commands_frame_witness :
  reachable (rng_seeded seed_row) row_opened ∧
  steps (rng_seeded seed_row) row_opened row_lost ∧
  cfg row_lost = cfg row_opened ∧ revealed row_opened ⊆ revealed row_lost.
Proof.
  assert (Hr : reachable (rng_seeded seed_row) row_opened)
    by exact (play_reachable _ _ _ _ row_opened_play).
  assert (Hs : steps (rng_seeded seed_row) row_opened row_lost).
  { apply (run_steps _ [Reveal 0 2]). vm_compute. reflexivity. }
  split; [exact Hr |]. split; [exact Hs |].
  destruct (commands_frame _ _ Hr) as [_ H]. by apply H.
Defined.

(** ** X7, X8, X9: the terminal states and the lazy placement *)

(** The number of safe cells once the mines are placed. *)
Lemma safe_cells_size s :
  inv s → wf_config (cfg s) → _mines_placed s = true →
  Z.of_nat (size (board (cfg s) ∖ mines s))
  = GameConfig.rows (cfg s) * GameConfig.cols (cfg s) - GameConfig.mines (cfg s).
Proof.
  intros Hinv [Hrows Hcols] Hp.
  rewrite size_difference by apply Hinv. rewrite size_board.
  pose proof (inv_placed _ Hinv Hp) as Hm.
  pose proof (subseteq_size _ _ (inv_mines _ Hinv)) as Hle. rewrite size_board in Hle.
  nia.
Qed.

Lemma board_inhabited c : wf_config c → (0, 0) ∈ board c.
Proof. intros [? ?]. apply elem_of_board, in_bounds_spec. cbn. lia. Qed.

Lemma game_over_placed s : inv s → game_over s = true → _mines_placed s = true.
Proof.
  intros Hinv Hgo. destruct (_mines_placed s) eqn:E; [done |].
  destruct (inv_unplaced _ Hinv E) as (_ & _ & ?). congruence.
Qed.

(** X7: on a configuration with positive dimensions, a reachable state is won
    exactly when every cell that is no mine is revealed, and then the
    revealed cells are exactly those: no flag is needed and no mine is
    shown. *)
Theorem won_iff_all_safe_revealed (rng : Rng) (s : Minesweeper) :
  reachable rng s → wf_config (cfg s) →
  (won s = true ↔ board (cfg s) ∖ mines s ⊆ revealed s) ∧
  (won s = true → revealed s = board (cfg s) ∖ mines s).
Proof.
  intros Hr Hwf. pose proof (reachable_inv _ _ Hr) as Hinv.
  pose proof (reachable_inv_terminal _ _ Hr) as Hit.
  assert (Hwon : won s = true → revealed s = board (cfg s) ∖ mines s).
  { intros Hw. destruct (inv_won _ Hinv Hw) as [Hgo Hsz].
    pose proof (game_over_placed _ Hinv Hgo) as Hp.
    apply set_subseteq_size_eq.
    - intros p Hp'. apply elem_of_difference. split; [by apply (inv_revealed _ Hinv) |].
      intros Hm. by apply (it_won _ Hit Hw p).
    - pose proof (safe_cells_size _ Hinv Hwf Hp). lia. }
  split; [| done]. split.
  - intros Hw. by rewrite (Hwon Hw).
  - intros Hall. destruct (won s) eqn:Hw; [done |]. exfalso.
    destruct (game_over s) eqn:Hgo.
    + (* lost *)
      destruct (it_lost _ Hit Hgo Hw) as (p & Hpm & Hpr & Hdis & Hsz).
      apply Hsz. rewrite <- (safe_cells_size _ Hinv Hwf (game_over_placed _ Hinv Hgo)).
      f_equal. f_equal. apply set_eq. intros q. split.
      * intros Hq. apply elem_of_difference. split.
        -- apply (inv_revealed _ Hinv). by apply elem_of_difference in Hq as [? _].
        -- intros Hqm. by apply (Hdis q).
      * intros [Hqb Hqm]%elem_of_difference. apply elem_of_difference. split.
        -- apply Hall. by apply elem_of_difference.
        -- intros ->%elem_of_singleton. done.
    + (* live *)
      destruct (_mines_placed s) eqn:Hp.
      * apply (inv_live _ Hinv Hgo).
        rewrite <- (safe_cells_size _ Hinv Hwf Hp). f_equal. f_equal.
        apply set_eq. intros q. split; [| by apply Hall].
        intros Hq. apply elem_of_difference. split; [by apply (inv_revealed _ Hinv) |].
        intros Hqm. by apply (inv_safe _ Hinv Hgo q).
      * destruct (inv_unplaced _ Hinv Hp) as (Hm0 & Hr0 & _).
        apply (not_elem_of_empty (C:=gset Coord) (0, 0)). rewrite <- Hr0.
        apply Hall, elem_of_difference. split; [by apply board_inhabited |].
        rewrite Hm0. apply not_elem_of_empty.
Qed.

Lemma won_iff_all_safe_revealed_witness :
  (reachable (rng_seeded seed_corner) won_4x4 ∧ wf_config (cfg won_4x4)) ∧
  revealed won_4x4 = board (cfg won_4x4) ∖ mines won_4x4.
Proof.
  assert (Hr : reachable (rng_seeded seed_corner) won_4x4)
    by exact (play_reachable _ _ _ _ won_4x4_play).
  assert (Hwf : wf_config (cfg won_4x4)) by (by vm_compute).
  split; [by split |].
  destruct (won_iff_all_safe_revealed _ _ Hr Hwf) as [_ H]. by apply H.
Defined.

(** X8: in a reachable state of a lost game exactly one mine is revealed, the
    one that was hit; every other revealed cell is a safe cell of the
    board. *)
Theorem lost_shows_one_mine (rng : Rng) (s : Minesweeper) :
  reachable rng s → game_over s = true → won s = false →
  ∃ p, revealed s ∩ mines s = {[p]} ∧ in_bounds (cfg s) p.1 p.2 = true ∧
       revealed s ∖ {[p]} ⊆ board (cfg s) ∖ mines s.
Proof.
  intros Hr Hgo Hw. pose proof (reachable_inv _ _ Hr) as Hinv.
  destruct (it_lost _ (reachable_inv_terminal _ _ Hr) Hgo Hw) as (p & Hpm & Hpr & Hdis & _).
  exists p. split_and!.
  - apply set_eq. intros q. rewrite elem_of_intersection, elem_of_singleton. split.
    + intros [Hq Hqm]. destruct (decide (q = p)) as [-> | Hne]; [done |].
      destruct (Hdis q); [| done]. apply elem_of_difference. split; [done |].
      by intros ?%elem_of_singleton.
    + by intros ->.
  - apply elem_of_board. by apply (inv_mines _ Hinv).
  - intros q Hq. apply elem_of_difference. split.
    + apply (inv_revealed _ Hinv). by apply elem_of_difference in Hq as [? _].
    + intros Hqm. by apply (Hdis q).
Qed.

Lemma lost_shows_one_mine_witness :
  (reachable (rng_seeded seed_row) row_lost ∧ game_over row_lost = true ∧
   won row_lost = false) ∧
  ∃ p, revealed row_lost ∩ mines row_lost = {[p]}.
Proof.
  assert (Hr : reachable (rng_seeded seed_row) row_lost)
    by exact (play_reachable _ _ _ _ row_lost_play).
  split; [by split_and! |].
  destruct (lost_shows_one_mine _ _ Hr eq_refl eq_refl) as (p & Hp & _).
  by exists p.
Defined.

(** X9: placement is lazy.  In a reachable state the mines are placed exactly
    when some cell is revealed; before that there is no mine and the grid is
    all zeros, whatever was flagged; and a game that is over has its mines
    placed. *)
Theorem placement_is_lazy (rng : Rng) (s : Minesweeper) :
  reachable rng s →
  (_mines_placed s = true ↔ revealed s ≠ ∅) ∧
  (_mines_placed s = false → mines s = ∅ ∧ adj s = zero_grid (cfg s)) ∧
  (game_over s = true → _mines_placed s = true).
Proof.
  intros Hr. pose proof (reachable_inv _ _ Hr) as Hinv.
  pose proof (reachable_inv_terminal _ _ Hr) as Hit. split_and!.
  - split; [apply Hit |]. intros Hne. destruct (_mines_placed s) eqn:E; [done |].
    by destruct (inv_unplaced _ Hinv E) as (_ & ? & _).
  - intros Hp. destruct (inv_unplaced _ Hinv Hp) as (Hm0 & _ & _). split; [done |].
    apply (grid_ext (cfg s)); [apply Hinv | apply grid_shape_zero |].
    intros q Hq. rewrite zero_grid_val by done.
    pose proof (adj_get_shape _ _ _ _ (inv_shape _ Hinv) Hq) as Hget.
    rewrite (inv_adj _ Hinv _ _ Hq) in Hget. injection Hget as Hget.
    destruct q as [r k]. cbn in Hget. rewrite <- Hget. apply mine_count_zero.
    intros p Hpm. rewrite Hm0 in Hpm. by apply not_elem_of_empty in Hpm.
  - by apply game_over_placed.
Qed.

Lemma placement_is_lazy_witness :
  reachable (rng_seeded seed_row) row_flagged ∧
  (_mines_placed row_flagged = true ↔ revealed row_flagged ≠ ∅).
Proof.
  assert (Hr : reachable (rng_seeded seed_row) row_flagged)
    by exact (play_reachable _ _ _ _ row_flagged_play).
  split; [exact Hr |]. by destruct (placement_is_lazy _ _ Hr) as [H _].
Defined.

(** ** X10: recomputing the grid *)

(** X10: [_recompute_adjacency] returns on every engine, whatever its mine
    set (mines off the board included): the grid it stores has [rows] rows of
    [cols] entries, the entry of a cell of the board is the number of mines at
    Chebyshev distance 1, the grid is the same in whatever order the mine set
    is iterated, and recomputing once more changes nothing. *)
Theorem recompute_adjacency_total (s : Minesweeper) :
  ∃ a, _recompute_adjacency s = Ok (set_adj s a) ∧
       grid_shape (cfg s) a ∧
       (∀ r k, in_bounds (cfg s) r k = true → adj_get a r k = Some (mine_count s r k)) ∧
       (∀ order, order ≡ₚ elements (mines s) →
          for_each (λ a m, for_each adj_incr (neighbors (cfg s) m.1 m.2) a)
            order (zero_grid (cfg s)) = Ok a) ∧
       _recompute_adjacency (set_adj s a) = Ok (set_adj s a).
Proof.
  destruct (_recompute_adjacency_spec s) as (a & Ha & Hs & Hv).
  exists a. split_and!; try done.
  intros order Hperm.
  rewrite (for_each_mines_order (cfg s) order (elements (mines s)))
    by (apply grid_shape_zero || done).
  unfold _recompute_adjacency in Ha.
  destruct (for_each _ (elements (mines s)) (zero_grid (cfg s))) as [a' | |];
    cbn in Ha; [| done | done].
  injection Ha as Ha. by subst.
Qed.

(** ** X11: flags commute *)

Lemma toggle_flag_guarded s r c :
  toggle_flag s r c
  = if game_over s || negb (in_bounds (cfg s) r c) || bool_decide ((r, c) ∈ revealed s)
    then s else set_flags s (toggled (flags s) (r, c)).
Proof.
  unfold toggle_flag, toggled.
  destruct (game_over s || negb (in_bounds (cfg s) r c)); [done |].
  cbn [orb]. by repeat case_bool_decide.
Qed.

Lemma toggled_comm (F : gset Coord) (a b : Coord) :
  toggled (toggled F a) b = toggled (toggled F b) a.
Proof.
  destruct (decide (a = b)) as [-> | Hne]; [done |].
  unfold toggled.
  destruct (decide (a ∈ F)) as [Ha | Ha], (decide (b ∈ F)) as [Hb | Hb].
  - rewrite (bool_decide_eq_true_2 _ Ha), (bool_decide_eq_true_2 _ Hb).
    rewrite !bool_decide_eq_true_2 by set_solver. set_solver.
  - rewrite (bool_decide_eq_true_2 _ Ha), (bool_decide_eq_false_2 _ Hb).
    rewrite (bool_decide_eq_false_2 (b ∈ _)) by set_solver.
    rewrite (bool_decide_eq_true_2 (a ∈ _)) by set_solver. set_solver.
  - rewrite (bool_decide_eq_false_2 _ Ha), (bool_decide_eq_true_2 _ Hb).
    rewrite (bool_decide_eq_true_2 (b ∈ _)) by set_solver.
    rewrite (bool_decide_eq_false_2 (a ∈ _)) by set_solver. set_solver.
  - rewrite (bool_decide_eq_false_2 _ Ha), (bool_decide_eq_false_2 _ Hb).
    rewrite !bool_decide_eq_false_2 by set_solver. set_solver.
Qed.

(** X11: two [toggle_flag] calls give the same engine in either order. *)
Theorem toggle_flag_commutes (s : Minesweeper) (r c r' c' : Z) :
  toggle_flag (toggle_flag s r c) r' c' = toggle_flag (toggle_flag s r' c') r c.
Proof.
  rewrite !toggle_flag_guarded.
  destruct (game_over s || negb (in_bounds (cfg s) r c)
            || bool_decide ((r, c) ∈ revealed s)) eqn:G1,
    (game_over s || negb (in_bounds (cfg s) r' c')
     || bool_decide ((r', c') ∈ revealed s)) eqn:G2;
    cbn [game_over cfg revealed flags set_flags]; rewrite ?G1, ?G2; try done.
  unfold set_flags. cbn. f_equal. apply toggled_comm.
Qed.

(** ** X12: a click on a numbered cell *)

Lemma flood_numbered s cell :
  grid_shape (cfg s) (adj s) → in_bounds (cfg s) cell.1 cell.2 = true →
  flood_skips s cell = false → adj_get (adj s) cell.1 cell.2 ≠ Some 0 →
  _flood_reveal s cell = Ok (set_revealed s ({[cell]} ∪ revealed s)).
Proof.
  intros Hs Hb Hsk Hadj. unfold _flood_reveal, flood_fuel.
  replace (8 * _ + 10)%nat with (S (S (8 * (Z.to_nat (GameConfig.rows (cfg s))
    * Z.to_nat (GameConfig.cols (cfg s))) + 8))) by lia.
  cbn [flood_loop].
  destruct (flood_body_cases s cell [] Hs Hb)
    as [[Hsk' _] | [(_ & _ & ->) | (_ & Hz & _)]]; [congruence | done | done].
Qed.

(** X12: in a reachable state of a live game with the mines placed, a click
    on a hidden, unflagged cell that is no mine and whose count is not zero
    reveals that cell and nothing else, and changes no other field but the
    two that a win sets. *)
Theorem numbered_click_opens_one (rng : Rng) (s : Minesweeper) (r c : Z) (n : Z) :
  reachable rng s → game_over s = false → _mines_placed s = true →
  in_bounds (cfg s) r c = true → (r, c) ∉ flags s → (r, c) ∉ revealed s →
  (r, c) ∉ mines s → adj_get (adj s) r c = Some n → n ≠ 0 →
  reveal rng s r c = Ok (_check_win (set_revealed s ({[(r, c)]} ∪ revealed s))) ∧
  1 ≤ n ≤ 8.
Proof.
  intros Hr Hgo Hp Hb Hf Hh Hm Hn Hn0. pose proof (reachable_inv _ _ Hr) as Hinv.
  split.
  - unfold reveal. rewrite Hgo, Hb, Hp. cbn [orb negb].
    rewrite !bool_decide_eq_false_2 by done. cbn [orb res_bind id].
    rewrite bool_decide_eq_false_2 by done.
    rewrite flood_numbered; [done | apply Hinv | done | | ].
    + apply flood_skips_false. done.
    + cbn. rewrite Hn. congruence.
  - rewrite (inv_adj _ Hinv _ _ Hb) in Hn. injection Hn as <-.
    pose proof (mine_count_neighbors s r c (inv_mines _ Hinv)) as Hc.
    pose proof (length_neighbors (cfg s) r c).
    pose proof (length_filter (λ p, p ∈ mines s) (neighbors (cfg s) r c)). lia.
Qed.

Lemma numbered_click_opens_one_witness :
  (reachable (rng_seeded seed_row) row_opened ∧ game_over row_opened = false ∧
   _mines_placed row_opened = true ∧ in_bounds (cfg row_opened) 0 3 = true ∧
   (0, 3) ∉ flags row_opened ∧ (0, 3) ∉ revealed row_opened ∧
   (0, 3) ∉ mines row_opened ∧ adj_get (adj row_opened) 0 3 = Some 2 ∧ 2 ≠ 0) ∧
  reveal (rng_seeded seed_row) row_opened 0 3
  = Ok (_check_win (set_revealed row_opened ({[(0, 3)]} ∪ revealed row_opened))).
Proof.
  assert (Hr : reachable (rng_seeded seed_row) row_opened)
    by exact (play_reachable _ _ _ _ row_opened_play).
  assert (H1 : (0, 3) ∉ flags row_opened) by (by vm_compute).
  assert (H2 : (0, 3) ∉ revealed row_opened) by (by vm_compute).
  assert (H3 : (0, 3) ∉ mines row_opened) by (by vm_compute).
  assert (H4 : (2 : Z) ≠ 0) by lia.
  split; [by split_and! |].
  by destruct (numbered_click_opens_one _ _ 0 3 2 Hr eq_refl eq_refl eq_refl
                 H1 H2 H3 eq_refl H4) as [H _].
Defined.

(** * The shell: [MinesweeperGUI] *)

From stdpp Require Import strings pretty.

Local Open Scope Z_scope.

(** ** Definitions *)

(** A theme: the dictionaries [THEME_LIGHT] and [THEME_DARK] have the same
    nine literal keys and are only read at literal keys. *)
Record Theme : Set := Build_Theme {
  root_bg : string;
  text : string;
  panel_bg : string;
  border : string;
  btn_hidden_bg : string;
  btn_hidden_fg : string;
  btn_revealed_bg : string;
  btn_revealed_fg : string;
  btn_disabled_fg : string;
}.

Definition THEME_LIGHT : Theme :=
  Build_Theme "#f2f2f2" "#111111" "#d9d9d9" "#000000" "#ececec" "#111111"
    "#cfcfcf" "#111111" "#111111".

Definition THEME_DARK : Theme :=
  Build_Theme "#121212" "#eaeaea" "#1e1e1e" "#444444" "#2a2a2a" "#eaeaea"
    "#202020" "#eaeaea" "#eaeaea".

(** A [tk.Button], as the options that have been set on it. *)
Abbreviation Button := (gmap string string).

(** [btn.config] with keyword options. *)
Definition config (options : list (string * string)) (btn : Button) : Button :=
  foldl (λ b kv, <[kv.1 := kv.2]> b) btn options.

(** The texts the shell puts on a button. *)
Definition bomb : string := "💣".
Definition flag : string := "🚩".
Definition blank : string := EmptyString.

(** The empty text [if n == 0 else str(n)]. *)
Definition number_text (n : Z) : string :=
  if bool_decide (n = 0) then blank else pretty n.

(** The part of a [MinesweeperGUI] that the handlers read and write: the Tk
    variables but the timer's, the engine with its random source, the grid of
    buttons, and the dialogs [messagebox.showinfo] has shown, latest first.
    The frames, the timer job and the ttk style are left out. *)
Record MinesweeperGUI : Type := Build_MinesweeperGUI {
  level_var : Z;
  dark_var : bool;
  status_var : string;
  flags_var : string;
  game : option (Rng * Minesweeper);
  buttons : list (list Button);
  dialogs : list (string * string);
}.

Definition set_buttons (gui : MinesweeperGUI) (bs : list (list Button)) : MinesweeperGUI :=
  Build_MinesweeperGUI (level_var gui) (dark_var gui) (status_var gui) (flags_var gui)
    (game gui) bs (dialogs gui).
Definition set_flags_var (gui : MinesweeperGUI) (x : string) : MinesweeperGUI :=
  Build_MinesweeperGUI (level_var gui) (dark_var gui) (status_var gui) x
    (game gui) (buttons gui) (dialogs gui).
Definition set_game (gui : MinesweeperGUI) (g : option (Rng * Minesweeper)) : MinesweeperGUI :=
  Build_MinesweeperGUI (level_var gui) (dark_var gui) (status_var gui) (flags_var gui)
    g (buttons gui) (dialogs gui).
Definition set_dark_var (gui : MinesweeperGUI) (b : bool) : MinesweeperGUI :=
  Build_MinesweeperGUI (level_var gui) b (status_var gui) (flags_var gui)
    (game gui) (buttons gui) (dialogs gui).
Definition set_level_var (gui : MinesweeperGUI) (l : Z) : MinesweeperGUI :=
  Build_MinesweeperGUI l (dark_var gui) (status_var gui) (flags_var gui)
    (game gui) (buttons gui) (dialogs gui).

(** [MinesweeperGUI.theme]. *)
Definition theme (gui : MinesweeperGUI) : Theme :=
  if dark_var gui then THEME_DARK else THEME_LIGHT.

(** [self.buttons[r][c]]. *)
Definition button_at (bs : list (list Button)) (r c : Z) : option Button :=
  py_index bs r ≫= λ row, py_index row c.

(** The grid once the button object [buttons[r][c]] has become [b]. *)
Definition set_button (bs : list (list Button)) (r c : Z) (b : Button)
  : list (list Button) :=
  match py_norm (length bs) r with
  | Some i =>
      match bs !! i with
      | Some row =>
          match py_norm (length row) c with
          | Some j => <[i := <[j := b]> row]> bs
          | None => bs
          end
      | None => bs
      end
  | None => bs
  end.

(** The body of the loops of [_refresh_board] at one cell. *)
Definition refresh_button (t : Theme) (g : Minesweeper) (bs : list (list Button))
    (cell : Coord) : res (list (list Button)) :=
  match button_at bs cell.1 cell.2 with
  | None => Raise IndexError bs
  | Some btn =>
      if bool_decide (cell ∈ revealed g) then
        let btn :=
          config [("relief", "sunken"); ("state", "disabled");
                  ("bg", btn_revealed_bg t); ("fg", btn_revealed_fg t);
                  ("disabledforeground", btn_disabled_fg t);
                  ("activebackground", btn_revealed_bg t)] btn in
        if bool_decide (cell ∈ mines g)
        then Ok (set_button bs cell.1 cell.2 (config [("text", bomb)] btn))
        else
          match adj_get (adj g) cell.1 cell.2 with
          | None => Raise IndexError (set_button bs cell.1 cell.2 btn)
          | Some n =>
              Ok (set_button bs cell.1 cell.2 (config [("text", number_text n)] btn))
          end
      else
        let btn :=
          config [("state", "normal"); ("relief", "raised");
                  ("bg", btn_hidden_bg t); ("fg", btn_hidden_fg t);
                  ("activebackground", btn_hidden_bg t)] btn in
        Ok (set_button bs cell.1 cell.2
              (config [("text", if bool_decide (cell ∈ flags g) then flag else blank)] btn))
  end.

(** [f"Flags: {len(self.game.flags)}/{cfg.mines}"]. *)
Definition flags_label (g : Minesweeper) : string :=
  "Flags: " +:+ pretty (size (flags g)) +:+ "/" +:+ pretty (GameConfig.mines (cfg g)).

(** [MinesweeperGUI._refresh_board]; [force_theme] only asks Tk to redraw. *)
Definition _refresh_board (gui : MinesweeperGUI) (force_theme : bool)
  : res MinesweeperGUI :=
  match game gui with
  | None => Ok gui
  | Some (_, g) =>
      if bool_decide (buttons gui = []) then Ok gui
      else
        let gui1 := set_flags_var gui (flags_label g) in
        res_bind (set_buttons gui1)
          (for_each (refresh_button (theme gui) g) (all_cells (cfg g)) (buttons gui))
          (λ bs, Ok (set_buttons gui1 bs))
  end.

(** The body of the loops of [_end_game] at one cell. *)
Definition end_button (t : Theme) (g : Minesweeper) (bs : list (list Button))
    (cell : Coord) : res (list (list Button)) :=
  match button_at bs cell.1 cell.2 with
  | None => Raise IndexError bs
  | Some btn =>
      let btn :=
        config [("state", "disabled"); ("relief", "sunken");
                ("bg", btn_revealed_bg t); ("fg", btn_revealed_fg t);
                ("disabledforeground", btn_disabled_fg t);
                ("activebackground", btn_revealed_bg t)] btn in
      if bool_decide (cell ∈ mines g)
      then Ok (set_button bs cell.1 cell.2 (config [("text", bomb)] btn))
      else
        match adj_get (adj g) cell.1 cell.2 with
        | None => Raise IndexError (set_button bs cell.1 cell.2 btn)
        | Some n =>
            Ok (set_button bs cell.1 cell.2 (config [("text", number_text n)] btn))
        end
  end.

(** The message of [_end_game]. *)
Definition end_message (g : Minesweeper) : string :=
  if won g then "You won! " else "Boom! You hit a mine 💥".

(** [MinesweeperGUI._end_game]. *)
Definition _end_game (gui : MinesweeperGUI) : res MinesweeperGUI :=
  match game gui with
  | None => Ok gui
  | Some (_, g) =>
      res_bind (set_buttons gui)
        (for_each (end_button (theme gui) g) (all_cells (cfg g)) (buttons gui))
        (λ bs,
           Ok (Build_MinesweeperGUI (level_var gui) (dark_var gui) (end_message g)
                 (flags_var gui) (game gui) bs
                 (("Game Over", end_message g) :: dialogs gui)))
  end.

(** [MinesweeperGUI.on_left_click]. *)
Definition on_left_click (gui : MinesweeperGUI) (r c : Z) : res MinesweeperGUI :=
  match game gui with
  | None => Ok gui
  | Some (rng, g) =>
      if game_over g then Ok gui
      else
        match reveal rng g r c with
        | Ok g' =>
            do gui1 <- _refresh_board (set_game gui (Some (rng, g'))) false;
            if game_over g' then _end_game gui1 else Ok gui1
        | Raise e g' => Raise e (set_game gui (Some (rng, g')))
        | OutOfFuel => OutOfFuel
        end
  end.

(** [MinesweeperGUI.on_right_click]. *)
Definition on_right_click (gui : MinesweeperGUI) (r c : Z) : res MinesweeperGUI :=
  match game gui with
  | None => Ok gui
  | Some (rng, g) =>
      if game_over g then Ok gui
      else _refresh_board (set_game gui (Some (rng, toggle_flag g r c))) false
  end.

(** [MinesweeperGUI.apply_theme], on the part of the shell that is modelled. *)
Definition apply_theme (gui : MinesweeperGUI) : res MinesweeperGUI :=
  _refresh_board gui true.

(** The buttons [new_game] creates, row by row; of the options of the
    constructor, [width], [height] and [relief] are kept. *)
Definition new_buttons (c : GameConfig) : list (list Button) :=
  (λ _, (λ _, config [("width", "2"); ("height", "1"); ("relief", "raised")] ∅)
          <$> seqZ 0 (GameConfig.cols c))
    <$> seqZ 0 (GameConfig.rows c).

(** [DIFFICULTIES[1]]. *)
Definition DIFFICULTIES_1 : GameConfig := GameConfig.mk 8 12 14.

(** [MinesweeperGUI.new_game], timer apart; [rng] is the [random.Random]
    that [Minesweeper(cfg)] creates. *)
Definition new_game (rng : Rng) (gui : MinesweeperGUI) : res MinesweeperGUI :=
  let c := default DIFFICULTIES_1 (DIFFICULTIES (level_var gui)) in
  match __init__ c with
  | inr e => Raise e gui
  | inl g =>
      apply_theme
        (Build_MinesweeperGUI (level_var gui) (dark_var gui)
           "Left click to reveal. Right click to flag."
           ("Flags: 0/" +:+ pretty (GameConfig.mines c))
           (Some (rng, g)) (new_buttons c) (dialogs gui))
  end.

(** What the user does to a running shell. *)
Inductive gesture : Type :=
  | NewGame (rng : Rng)
  | LeftClick (r c : Z)
  | RightClick (r c : Z)
  | DarkMode (on : bool)
  | Level (l : Z).

Definition handle (gui : MinesweeperGUI) (a : gesture) : res MinesweeperGUI :=
  match a with
  | NewGame rng => new_game rng gui
  | LeftClick r c => on_left_click gui r c
  | RightClick r c => on_right_click gui r c
  | DarkMode on => apply_theme (set_dark_var gui on)
  | Level l => Ok (set_level_var gui l)
  end.

(** The shell as [MinesweeperGUI.__init__] leaves it before its call of
    [new_game]. *)
Definition gui_blank : MinesweeperGUI :=
  Build_MinesweeperGUI 1 false "Pick difficulty and start a new game." "Flags: 0/0"
    None [] [].

(** A run of the shell on the gestures of the user, one handler call after
    the other. *)
Fixpoint drive (gui : MinesweeperGUI) (gestures : list gesture) : res MinesweeperGUI :=
  match gestures with
  | [] => Ok gui
  | a :: rest => do gui' <- handle gui a; drive gui' rest
  end.

(** A session: [MinesweeperGUI.__init__], whose [new_game] draws from [rng],
    then the gestures. *)
Definition session (rng : Rng) (gestures : list gesture) : res MinesweeperGUI :=
  do gui <- new_game rng gui_blank; drive gui gestures.

(** What a session leaves on the button of a cell under an option, and the
    dialogs it has shown. *)
Definition look (m : res MinesweeperGUI) (r c : Z) (key : string) : option string :=
  match m with
  | Ok gui => button_at (buttons gui) r c ≫= λ btn, btn !! key
  | _ => None
  end.

Definition heard (m : res MinesweeperGUI) : list (string * string) :=
  match m with
  | Ok gui => dialogs gui
  | _ => []
  end.

(** The grid of buttons has a button for every cell of the board. *)
Definition bshape (c : GameConfig) (bs : list (list Button)) : Prop :=
  length bs = Z.to_nat (GameConfig.rows c) ∧
  Forall (λ row, length row = Z.to_nat (GameConfig.cols c)) bs.

(** Reconfiguring the button of a cell. *)
Definition paint (F : Coord → Button → Button) (bs : list (list Button)) (cell : Coord)
  : res (list (list Button)) :=
  match button_at bs cell.1 cell.2 with
  | Some btn => Ok (set_button bs cell.1 cell.2 (F cell btn))
  | None => Raise IndexError bs
  end.

(** What [_refresh_board] and [_end_game] make of the button of a cell. *)
Definition refresh_view (t : Theme) (g : Minesweeper) (cell : Coord) (btn : Button)
  : Button :=
  if bool_decide (cell ∈ revealed g) then
    config [("text", if bool_decide (cell ∈ mines g) then bomb
                     else number_text (cell_val (adj g) cell))]
      (config [("relief", "sunken"); ("state", "disabled");
               ("bg", btn_revealed_bg t); ("fg", btn_revealed_fg t);
               ("disabledforeground", btn_disabled_fg t);
               ("activebackground", btn_revealed_bg t)] btn)
  else
    config [("text", if bool_decide (cell ∈ flags g) then flag else blank)]
      (config [("state", "normal"); ("relief", "raised");
               ("bg", btn_hidden_bg t); ("fg", btn_hidden_fg t);
               ("activebackground", btn_hidden_bg t)] btn).

Definition end_view (t : Theme) (g : Minesweeper) (cell : Coord) (btn : Button)
  : Button :=
  config [("text", if bool_decide (cell ∈ mines g) then bomb
                   else number_text (cell_val (adj g) cell))]
    (config [("state", "disabled"); ("relief", "sunken");
             ("bg", btn_revealed_bg t); ("fg", btn_revealed_fg t);
             ("disabledforeground", btn_disabled_fg t);
             ("activebackground", btn_revealed_bg t)] btn).

(** The text a cell shows during the game: a flag or nothing while hidden,
    the count of the mines around it (nothing for zero) once revealed, a bomb
    on a revealed mine. *)
Definition live_text (g : Minesweeper) (cell : Coord) : string :=
  if bool_decide (cell ∈ revealed g) then
    if bool_decide (cell ∈ mines g) then bomb
    else number_text (mine_count g cell.1 cell.2)
  else if bool_decide (cell ∈ flags g) then flag else blank.

(** The text a cell shows once [_end_game] has run. *)
Definition end_text (g : Minesweeper) (cell : Coord) : string :=
  if bool_decide (cell ∈ mines g) then bomb
  else number_text (mine_count g cell.1 cell.2).

Definition shown_live (g : Minesweeper) (cell : Coord) (btn : Button) : Prop :=
  btn !! "text" = Some (live_text g cell) ∧
  btn !! "state" = Some (if bool_decide (cell ∈ revealed g) then "disabled" else "normal") ∧
  btn !! "relief" = Some (if bool_decide (cell ∈ revealed g) then "sunken" else "raised").

Definition shown_end (g : Minesweeper) (cell : Coord) (btn : Button) : Prop :=
  btn !! "text" = Some (end_text g cell) ∧
  btn !! "state" = Some "disabled" ∧ btn !! "relief" = Some "sunken".

(** The colours [_refresh_board] gives the button of a cell. *)
Definition shown_theme (t : Theme) (g : Minesweeper) (cell : Coord) (btn : Button) : Prop :=
  btn !! "bg" = Some (if bool_decide (cell ∈ revealed g)
                      then btn_revealed_bg t else btn_hidden_bg t) ∧
  btn !! "fg" = Some (if bool_decide (cell ∈ revealed g)
                      then btn_revealed_fg t else btn_hidden_fg t).

(** What the shell keeps between two gestures. *)
Definition gui_inv (gui : MinesweeperGUI) : Prop :=
  ∃ rng g,
    game gui = Some (rng, g) ∧ reachable rng g ∧
    (∃ lvl, 1 ≤ lvl ≤ 5 ∧ DIFFICULTIES lvl = Some (cfg g)) ∧
    bshape (cfg g) (buttons gui) ∧
    flags_var gui = flags_label g ∧
    ∀ cell, in_bounds (cfg g) cell.1 cell.2 = true →
      ∃ btn, button_at (buttons gui) cell.1 cell.2 = Some btn ∧
             (shown_live g cell btn ∨ (game_over g = true ∧ shown_end g cell btn)).

(** ** Lemmas on the grid of buttons *)

Lemma button_row c bs r k :
  bshape c bs → in_bounds c r k = true →
  ∃ row btn, bs !! Z.to_nat r = Some row ∧ row !! Z.to_nat k = Some btn ∧
             length row = Z.to_nat (GameConfig.cols c) ∧
             py_norm (length bs) r = Some (Z.to_nat r) ∧
             py_norm (length row) k = Some (Z.to_nat k) ∧
             button_at bs r k = Some btn.
Proof.
  intros [Hlen Hrows] [Hr Hk]%in_bounds_spec.
  destruct (lookup_lt_is_Some_2 bs (Z.to_nat r)) as [row Hrow]; [lia |].
  rewrite Forall_lookup in Hrows. pose proof (Hrows _ _ Hrow) as Hl.
  destruct (lookup_lt_is_Some_2 row (Z.to_nat k)) as [btn Hbtn]; [lia |].
  exists row, btn.
  assert (Hn : py_norm (length bs) r = Some (Z.to_nat r)) by (apply py_norm_nonneg; lia).
  assert (Hm : py_norm (length row) k = Some (Z.to_nat k)) by (apply py_norm_nonneg; lia).
  split_and!; try done.
  unfold button_at, py_index. rewrite Hn. cbn. rewrite Hrow. cbn. rewrite Hm. cbn. done.
Qed.

Lemma set_button_spec c bs r k b :
  bshape c bs → in_bounds c r k = true →
  bshape c (set_button bs r k b) ∧
  ∀ q, in_bounds c q.1 q.2 = true →
       button_at (set_button bs r k b) q.1 q.2
       = if decide (q = (r, k)) then Some b else button_at bs q.1 q.2.
Proof.
  intros Hs Hb.
  destruct (button_row c bs r k Hs Hb) as (row & btn & Hrow & Hbtn & Hl & Hn & Hm & _).
  unfold set_button. rewrite Hn, Hrow, Hm.
  assert (Hs' : bshape c (<[Z.to_nat r := <[Z.to_nat k := b]> row]> bs)).
  { destruct Hs as [Hlen Hrows]. split; [by rewrite length_insert |].
    apply Forall_insert; [done |]. by rewrite length_insert. }
  split; [done |]. intros q Hq.
  destruct (button_row c _ _ _ Hs' Hq) as (row' & btn' & Hrow' & Hbtn' & _ & _ & _ & ->).
  destruct (button_row c _ _ _ Hs Hq) as (row0 & btn0 & Hrow0 & Hbtn0 & _ & _ & _ & ->).
  apply in_bounds_spec in Hb, Hq.
  destruct (decide (Z.to_nat r = Z.to_nat q.1)) as [E1 | N1].
  - rewrite <- E1 in Hrow', Hrow0.
    rewrite list_lookup_insert_eq in Hrow' by (apply lookup_lt_is_Some; eauto).
    injection Hrow' as <-. simplify_eq.
    destruct (decide (Z.to_nat k = Z.to_nat q.2)) as [E2 | N2].
    + rewrite <- E2 in Hbtn', Hbtn0.
      rewrite list_lookup_insert_eq in Hbtn' by (apply lookup_lt_is_Some; eauto).
      rewrite decide_True; [congruence |]. destruct q; cbn in *. f_equal; lia.
    + rewrite list_lookup_insert_ne in Hbtn' by done.
      rewrite decide_False; [congruence |]. intros ->. done.
  - rewrite list_lookup_insert_ne in Hrow' by done.
    rewrite decide_False; [congruence |]. intros ->. done.
Qed.

(** A loop that repaints the buttons of distinct cells of the board. *)
Lemma for_each_paint c (body : list (list Button) → Coord → res (list (list Button)))
    (F : Coord → Button → Button) (l : list Coord) :
  (∀ bs cell, bshape c bs → in_bounds c cell.1 cell.2 = true →
              body bs cell = paint F bs cell) →
  NoDup l → Forall (λ p, in_bounds c p.1 p.2 = true) l →
  ∀ bs, bshape c bs →
  ∃ bs', for_each body l bs = Ok bs' ∧ bshape c bs' ∧
         ∀ q, in_bounds c q.1 q.2 = true →
              ∃ b, button_at bs q.1 q.2 = Some b ∧
                   button_at bs' q.1 q.2 = Some (if decide (q ∈ l) then F q b else b).
Proof.
  intros Hbody Hnd. induction Hnd as [| p l Hp Hnd IH]; intros Hl bs Hs.
  - exists bs. split_and!; [done | done |]. intros q Hq.
    destruct (button_row c bs _ _ Hs Hq) as (_ & b & _ & _ & _ & _ & _ & Hb).
    exists b. by rewrite decide_False by apply not_elem_of_nil.
  - apply Forall_cons in Hl as [Hpb Hl].
    destruct (button_row c bs _ _ Hs Hpb) as (_ & bp & _ & _ & _ & _ & _ & Hbp).
    destruct (set_button_spec c bs p.1 p.2 (F p bp) Hs Hpb) as [Hs1 Hget1].
    destruct (IH Hl _ Hs1) as (bs' & E & Hs' & Hget').
    exists bs'. cbn [for_each]. rewrite (Hbody _ _ Hs Hpb). unfold paint. rewrite Hbp.
    split_and!; [done | done |]. intros q Hq.
    destruct (Hget' q Hq) as (b1 & Hb1 & Hb').
    rewrite Hget1 in Hb1 by done. rewrite Hb'.
    destruct (decide (q = (p.1, p.2))) as [Eq | Nq].
    + assert (q = p) as -> by (by destruct p). injection Hb1 as <-.
      exists bp. split; [done |].
      rewrite (decide_False (P := p ∈ l)) by done.
      by rewrite decide_True by left.
    + exists b1. split; [done |].
      destruct (decide (q ∈ l)) as [Hin | Hnin].
      * by rewrite decide_True by (by right).
      * rewrite decide_False; [done |].
        intros [-> | ?]%elem_of_cons; [| done]. by destruct p.
Qed.

Lemma Forall_all_cells_in_bounds c :
  Forall (λ p, in_bounds c p.1 p.2 = true) (all_cells c).
Proof. apply Forall_forall. intros p. apply elem_of_all_cells. Qed.

Lemma refresh_button_paint t g bs cell :
  grid_shape (cfg g) (adj g) → in_bounds (cfg g) cell.1 cell.2 = true →
  refresh_button t g bs cell = paint (refresh_view t g) bs cell.
Proof.
  intros Hs Hb. unfold refresh_button, paint, refresh_view.
  destruct (button_at bs cell.1 cell.2) as [btn |]; [| done].
  rewrite (adj_get_shape _ _ _ _ Hs Hb).
  repeat case_bool_decide; try done; by destruct cell.
Qed.

Lemma end_button_paint t g bs cell :
  grid_shape (cfg g) (adj g) → in_bounds (cfg g) cell.1 cell.2 = true →
  end_button t g bs cell = paint (end_view t g) bs cell.
Proof.
  intros Hs Hb. unfold end_button, paint, end_view.
  destruct (button_at bs cell.1 cell.2) as [btn |]; [| done].
  rewrite (adj_get_shape _ _ _ _ Hs Hb).
  repeat case_bool_decide; try done; by destruct cell.
Qed.

Lemma cell_val_count g cell :
  inv g → in_bounds (cfg g) cell.1 cell.2 = true →
  cell_val (adj g) cell = mine_count g cell.1 cell.2.
Proof.
  intros Hinv Hb. unfold cell_val. by rewrite (inv_adj _ Hinv _ _ Hb).
Qed.

Lemma refresh_view_shown t g cell btn :
  inv g → in_bounds (cfg g) cell.1 cell.2 = true →
  shown_live g cell (refresh_view t g cell btn).
Proof.
  intros Hinv Hb. unfold shown_live, refresh_view, live_text.
  rewrite (cell_val_count _ _ Hinv Hb).
  case_bool_decide; unfold config; cbn [foldl fst snd]; by simplify_map_eq.
Qed.

Lemma end_view_shown t g cell btn :
  inv g → in_bounds (cfg g) cell.1 cell.2 = true →
  shown_end g cell (end_view t g cell btn).
Proof.
  intros Hinv Hb. unfold shown_end, end_view, end_text.
  rewrite (cell_val_count _ _ Hinv Hb).
  unfold config; cbn [foldl fst snd]; by simplify_map_eq.
Qed.

(** ** Lemmas on the handlers *)

Lemma bshape_nonempty c bs : wf_config c → bshape c bs → bs ≠ [].
Proof. intros [Hr _] [Hlen _] ->. cbn in Hlen. lia. Qed.

Lemma _refresh_board_spec gui rng g force :
  game gui = Some (rng, g) → inv g → wf_config (cfg g) →
  bshape (cfg g) (buttons gui) →
  ∃ bs, _refresh_board gui force
        = Ok (set_buttons (set_flags_var gui (flags_label g)) bs) ∧
        bshape (cfg g) bs ∧
        ∀ cell, in_bounds (cfg g) cell.1 cell.2 = true →
          ∃ b0, button_at (buttons gui) cell.1 cell.2 = Some b0 ∧
                button_at bs cell.1 cell.2 = Some (refresh_view (theme gui) g cell b0).
Proof.
  intros Hg Hinv Hwf Hs. unfold _refresh_board. rewrite Hg.
  rewrite bool_decide_eq_false_2 by by eapply bshape_nonempty.
  destruct (for_each_paint (cfg g) (refresh_button (theme gui) g)
              (refresh_view (theme gui) g) (all_cells (cfg g))) with (bs := buttons gui)
    as (bs & -> & Hs' & Hget).
  - intros bs cell _ Hb. apply refresh_button_paint; [apply Hinv | done].
  - apply NoDup_all_cells.
  - apply Forall_all_cells_in_bounds.
  - done.
  - exists bs. split_and!; [done | done |]. intros cell Hb.
    destruct (Hget cell Hb) as (b0 & Hb0 & Hb'). exists b0. split; [done |].
    rewrite Hb'. by rewrite decide_True by (by apply elem_of_all_cells).
Qed.

Lemma _end_game_spec gui rng g :
  game gui = Some (rng, g) → inv g → bshape (cfg g) (buttons gui) →
  ∃ bs, _end_game gui
        = Ok (Build_MinesweeperGUI (level_var gui) (dark_var gui) (end_message g)
                (flags_var gui) (game gui) bs
                (("Game Over", end_message g) :: dialogs gui)) ∧
        bshape (cfg g) bs ∧
        ∀ cell, in_bounds (cfg g) cell.1 cell.2 = true →
          ∃ b0, button_at (buttons gui) cell.1 cell.2 = Some b0 ∧
                button_at bs cell.1 cell.2 = Some (end_view (theme gui) g cell b0).
Proof.
  intros Hg Hinv Hs. unfold _end_game. rewrite Hg.
  destruct (for_each_paint (cfg g) (end_button (theme gui) g)
              (end_view (theme gui) g) (all_cells (cfg g))) with (bs := buttons gui)
    as (bs & -> & Hs' & Hget).
  - intros bs cell _ Hb. apply end_button_paint; [apply Hinv | done].
  - apply NoDup_all_cells.
  - apply Forall_all_cells_in_bounds.
  - done.
  - exists bs. split_and!; [done | done |]. intros cell Hb.
    destruct (Hget cell Hb) as (b0 & Hb0 & Hb'). exists b0. split; [done |].
    rewrite Hb'. by rewrite decide_True by (by apply elem_of_all_cells).
Qed.

(** On a configuration with [mines >= 0], [reveal] returns. *)
Lemma reveal_returns rng g r c :
  inv g → 0 ≤ GameConfig.mines (cfg g) →
  ∃ g', reveal rng g r c = Ok g' ∧ inv g' ∧ cfg g' = cfg g.
Proof.
  intros Hinv Hm.
  assert (∃ g', reveal rng g r c = Ok g') as [g' Hg'].
  { reveal_cases_of rng g r c Hinv; [by eexists | lia | by eexists | by eexists]. }
  exists g'. split; [done |].
  assert (Hstep : step rng g (Reveal r c) = Some g') by (cbn; by rewrite Hg').
  split; [by eapply inv_step |]. by destruct (step_frame _ _ _ _ Hinv Hstep) as [? _].
Qed.

(** The board after a handler has redrawn it. *)
Definition redrawn (gui gui' : MinesweeperGUI) (rng : Rng) (g' : Minesweeper) : Prop :=
  game gui' = Some (rng, g') ∧ bshape (cfg g') (buttons gui') ∧
  flags_var gui' = flags_label g' ∧
  level_var gui' = level_var gui ∧ dark_var gui' = dark_var gui ∧
  (game_over g' = false →
   dialogs gui' = dialogs gui ∧ status_var gui' = status_var gui ∧
   ∀ cell, in_bounds (cfg g') cell.1 cell.2 = true →
     ∃ btn, button_at (buttons gui') cell.1 cell.2 = Some btn ∧ shown_live g' cell btn) ∧
  (game_over g' = true →
   dialogs gui' = ("Game Over", end_message g') :: dialogs gui ∧
   status_var gui' = end_message g' ∧
   ∀ cell, in_bounds (cfg g') cell.1 cell.2 = true →
     ∃ btn, button_at (buttons gui') cell.1 cell.2 = Some btn ∧ shown_end g' cell btn).

Lemma on_left_click_spec gui rng g r c :
  game gui = Some (rng, g) → inv g →
  wf_config (cfg g) → 0 ≤ GameConfig.mines (cfg g) →
  bshape (cfg g) (buttons gui) → game_over g = false →
  ∃ g' gui', reveal rng g r c = Ok g' ∧ on_left_click gui r c = Ok gui' ∧
             inv g' ∧ cfg g' = cfg g ∧ redrawn gui gui' rng g'.
Proof.
  intros Hg Hinv Hwf Hm Hs Hgo.
  destruct (reveal_returns rng g r c Hinv Hm) as (g' & Hrev & Hinv' & Hc).
  unfold on_left_click. rewrite Hg, Hgo, Hrev.
  set (gui0 := set_game gui (Some (rng, g'))).
  destruct (_refresh_board_spec gui0 rng g' false) as (bs & -> & Hbs & Hget);
    [done | done | by rewrite Hc | by rewrite Hc |].
  cbn [res_bind id].
  set (gui1 := set_buttons (set_flags_var gui0 (flags_label g')) bs).
  destruct (game_over g') eqn:Hgo'.
  - destruct (_end_game_spec gui1 rng g') as (bs2 & -> & Hbs2 & Hget2); [done .. |].
    exists g'. eexists. split_and!; try done. unfold redrawn. cbn.
    split_and!; try done; [intros ?; congruence |]. intros _. split_and!; try done.
    intros cell Hb. destruct (Hget2 cell Hb) as (b0 & _ & ->).
    eexists. split; [done |]. by apply end_view_shown.
  - exists g', gui1. split_and!; try done. unfold redrawn. cbn.
    split_and!; try done; [| intros ?; congruence]. intros _. split_and!; try done.
    intros cell Hb. destruct (Hget cell Hb) as (b0 & _ & ->).
    eexists. split; [done |]. by apply refresh_view_shown.
Qed.

Lemma on_right_click_spec gui rng g r c :
  game gui = Some (rng, g) → inv g → wf_config (cfg g) →
  bshape (cfg g) (buttons gui) → game_over g = false →
  ∃ gui', on_right_click gui r c = Ok gui' ∧
          redrawn gui gui' rng (toggle_flag g r c).
Proof.
  intros Hg Hinv Hwf Hs Hgo.
  destruct (toggle_flag_fields g r c) as (Hc & _ & _ & _ & _ & Hgo' & _).
  unfold on_right_click. rewrite Hg, Hgo.
  set (gui0 := set_game gui (Some (rng, toggle_flag g r c))).
  destruct (_refresh_board_spec gui0 rng (toggle_flag g r c) false)
    as (bs & -> & Hbs & Hget);
    [done | by apply inv_toggle_flag | by rewrite Hc | by rewrite Hc |].
  eexists. split; [done |]. unfold redrawn. cbn.
  split_and!; try done; [| intros ?; congruence].
  intros _. split_and!; try done.
  intros cell Hb. destruct (Hget cell Hb) as (b0 & _ & ->).
  eexists. split; [done |]. apply refresh_view_shown; [by apply inv_toggle_flag | done].
Qed.

Lemma new_buttons_shape c : bshape c (new_buttons c).
Proof.
  unfold bshape, new_buttons. split.
  - by rewrite length_fmap, length_seqZ.
  - apply Forall_fmap, Forall_forall. intros r _. cbn.
    by rewrite length_fmap, length_seqZ.
Qed.

Lemma level_config_preset l :
  ∃ lvl, 1 ≤ lvl ≤ 5 ∧
         DIFFICULTIES lvl = Some (default DIFFICULTIES_1 (DIFFICULTIES l)) ∧
         (1 ≤ l ≤ 5 → lvl = l) ∧ (¬ 1 ≤ l ≤ 5 → lvl = 1).
Proof.
  unfold DIFFICULTIES. repeat case_bool_decide; subst; cbn;
    first [by exists 1; split_and!; (done || lia)
          | by exists 2; split_and!; (done || lia)
          | by exists 3; split_and!; (done || lia)
          | by exists 4; split_and!; (done || lia)
          | by exists 5; split_and!; (done || lia)].
Qed.

Lemma new_game_spec rng gui :
  ∃ g gui',
    __init__ (default DIFFICULTIES_1 (DIFFICULTIES (level_var gui))) = inl g ∧
    new_game rng gui = Ok gui' ∧
    game gui' = Some (rng, g) ∧ bshape (cfg g) (buttons gui') ∧
    flags_var gui' = flags_label g ∧
    status_var gui' = "Left click to reveal. Right click to flag." ∧
    level_var gui' = level_var gui ∧ dark_var gui' = dark_var gui ∧
    dialogs gui' = dialogs gui ∧
    ∀ cell, in_bounds (cfg g) cell.1 cell.2 = true →
      ∃ btn, button_at (buttons gui') cell.1 cell.2 = Some btn ∧ shown_live g cell btn.
Proof.
  destruct (level_config_preset (level_var gui)) as (lvl & _ & Hpre & _).
  set (c := default DIFFICULTIES_1 (DIFFICULTIES (level_var gui))) in *.
  destruct (DIFFICULTIES_valid _ _ Hpre) as (Hwf & Hm & g & Hinit).
  pose proof (inv_init _ _ Hinit) as Hinv.
  assert (Hc : cfg g = c).
  { unfold __init__ in Hinit. case_bool_decide; [done |]. by injection Hinit as <-. }
  exists g. unfold new_game. fold c. rewrite Hinit. unfold apply_theme.
  match goal with
  | |- ∃ gui', _ ∧ _refresh_board ?gui0 _ = _ ∧ _ =>
      destruct (_refresh_board_spec gui0 rng g true) as (bs & -> & Hbs & Hget);
        [done | done | by rewrite Hc | rewrite Hc; apply new_buttons_shape |]
  end.
  eexists. split; [done |]. split; [reflexivity |]. cbn. split_and!; try done.
  intros cell Hb. destruct (Hget cell Hb) as (b0 & _ & ->).
  eexists. split; [done |]. by apply refresh_view_shown.
Qed.

(** ** The invariant of a session *)

Lemma redrawn_inv gui gui' rng g' :
  redrawn gui gui' rng g' → reachable rng g' →
  (∃ lvl, 1 ≤ lvl ≤ 5 ∧ DIFFICULTIES lvl = Some (cfg g')) →
  gui_inv gui'.
Proof.
  intros (Hg & Hs & Hf & _ & _ & Hlive & Hover) Hr Hpre.
  exists rng, g'. split_and!; try done. intros cell Hb.
  destruct (game_over g') eqn:Hgo.
  - destruct (Hover eq_refl) as (_ & _ & Hshown).
    destruct (Hshown cell Hb) as (btn & Hbtn & Hend). exists btn. split; [done |]. by right.
  - destruct (Hlive eq_refl) as (_ & _ & Hshown).
    destruct (Hshown cell Hb) as (btn & Hbtn & Hl). exists btn. split; [done |]. by left.
Qed.

Lemma new_game_inv rng gui :
  ∃ gui', new_game rng gui = Ok gui' ∧ gui_inv gui'.
Proof.
  destruct (new_game_spec rng gui)
    as (g0 & gui' & Hinit & -> & Hg' & Hs' & Hf' & _ & _ & _ & _ & Hsh').
  exists gui'. split; [done |]. exists rng, g0.
  split; [done |]. split; [by eapply reachable_init |].
  split; [| split; [done |]; split; [done |]].
  - destruct (level_config_preset (level_var gui)) as (lvl' & Hl & Hpre' & _).
    exists lvl'. split; [done |]. rewrite Hpre'. f_equal.
    unfold __init__ in Hinit. case_bool_decide; [done |]. by injection Hinit as <-.
  - intros cell Hb. destruct (Hsh' cell Hb) as (btn & ? & ?).
    exists btn. split; [done |]. by left.
Qed.

Lemma gui_inv_handle gui a :
  gui_inv gui → ∃ gui', handle gui a = Ok gui' ∧ gui_inv gui'.
Proof.
  intros Hgi.
  pose proof Hgi as (rng & g & Hg & Hr & (lvl & Hl & Hpre) & Hs & Hf & Hshown).
  pose proof (reachable_inv _ _ Hr) as Hinv.
  destruct (DIFFICULTIES_valid _ _ Hpre) as (Hwf & [Hm _] & _).
  destruct a as [rng' | r c | r c | on | l]; cbn [handle].
  - apply new_game_inv.
  - destruct (game_over g) eqn:Hgo.
    + exists gui. split; [| done]. unfold on_left_click. by rewrite Hg, Hgo.
    + destruct (on_left_click_spec gui rng g r c)
        as (g' & gui' & Hrev & -> & Hinv' & Hc & Hre); try done.
      exists gui'. split; [done |]. eapply redrawn_inv; [done | |].
      * apply (reachable_step rng g (Reveal r c)); [done |]. cbn. by rewrite Hrev.
      * exists lvl. by rewrite Hc.
  - destruct (game_over g) eqn:Hgo.
    + exists gui. split; [| done]. unfold on_right_click. by rewrite Hg, Hgo.
    + destruct (on_right_click_spec gui rng g r c) as (gui' & -> & Hre); try done.
      exists gui'. split; [done |].
      destruct (toggle_flag_fields g r c) as (Hc & _).
      eapply redrawn_inv; [done | |].
      * by apply (reachable_step rng g (ToggleFlag r c)).
      * exists lvl. by rewrite Hc.
  - unfold apply_theme.
    destruct (_refresh_board_spec (set_dark_var gui on) rng g true)
      as (bs & -> & Hbs & Hget); try done.
    eexists. split; [done |]. exists rng, g. cbn.
    split; [done |]. split; [done |]. split; [by eauto |]. split; [done |]. split; [done |].
    intros cell Hb. destruct (Hget cell Hb) as (b0 & _ & ->).
    eexists. split; [done |]. left. by apply refresh_view_shown.
  - eexists. split; [done |]. exists rng, g. cbn.
    split; [done |]. split; [done |]. split; [by eauto |]. by split_and!.
Qed.

Lemma drive_inv gestures :
  ∀ gui, gui_inv gui → ∃ gui', drive gui gestures = Ok gui' ∧ gui_inv gui'.
Proof.
  induction gestures as [| a rest IH]; intros gui Hgi; cbn [drive].
  - by exists gui.
  - destruct (gui_inv_handle gui a Hgi) as (gui1 & -> & Hgi1). cbn [res_bind id].
    by apply IH.
Qed.

Lemma session_inv rng gestures :
  ∃ gui, session rng gestures = Ok gui ∧ gui_inv gui.
Proof.
  unfold session. destruct (new_game_inv rng gui_blank) as (gui0 & -> & Hgi0).
  cbn [res_bind id]. by apply drive_inv.
Qed.

(** The count on a cell of the board is one of 0..8: it is never the bomb. *)
Lemma mine_count_bounds g r c :
  mines g ⊆ board (cfg g) → 0 ≤ mine_count g r c ≤ 8.
Proof.
  intros Hm. rewrite (mine_count_neighbors _ _ _ Hm).
  pose proof (length_filter (λ p, p ∈ mines g) (neighbors (cfg g) r c)).
  pose proof (length_neighbors (cfg g) r c). lia.
Qed.

Lemma number_text_not_bomb n : 0 ≤ n ≤ 8 → number_text n ≠ bomb.
Proof.
  intros Hn.
  assert (n = 0 ∨ n = 1 ∨ n = 2 ∨ n = 3 ∨ n = 4 ∨ n = 5 ∨ n = 6 ∨ n = 7 ∨ n = 8)
    as Hcases by lia.
  destruct_or! Hcases; subst n; by vm_compute.
Qed.

Lemma live_text_not_bomb g cell :
  inv g → game_over g = false → live_text g cell ≠ bomb.
Proof.
  intros Hinv Hgo. unfold live_text.
  pose proof (inv_safe _ Hinv Hgo) as Hsafe.
  repeat case_bool_decide; try by vm_compute.
  - set_solver.
  - apply number_text_not_bomb, mine_count_bounds, Hinv.
Qed.

Lemma refresh_view_theme t g cell btn :
  shown_theme t g cell (refresh_view t g cell btn).
Proof.
  unfold shown_theme, refresh_view.
  case_bool_decide; unfold config; cbn [foldl fst snd]; by simplify_map_eq.
Qed.

(** ** X13: a new game

    X13: [new_game] never raises, whatever the level variable holds: a level
    among 1..5 starts its preset and any other level the first preset.  The
    engine is the one [__init__] returns, the counter reads zero flags out of
    the mines of the preset, the dialogs are as before, and every cell of the
    board has a button that is hidden: no text, enabled, raised. *)
Theorem new_game_starts_preset (rng : Rng) (gui : MinesweeperGUI) :
  ∃ g gui',
    new_game rng gui = Ok gui' ∧ game gui' = Some (rng, g) ∧
    (1 ≤ level_var gui ≤ 5 → DIFFICULTIES (level_var gui) = Some (cfg g)) ∧
    (¬ 1 ≤ level_var gui ≤ 5 → cfg g = GameConfig.mk 8 12 14) ∧
    g = Build_Minesweeper (cfg g) ∅ (zero_grid (cfg g)) ∅ ∅ false false false ∧
    flags_var gui' = "Flags: 0/" +:+ pretty (GameConfig.mines (cfg g)) ∧
    status_var gui' = "Left click to reveal. Right click to flag." ∧
    level_var gui' = level_var gui ∧ dark_var gui' = dark_var gui ∧
    dialogs gui' = dialogs gui ∧
    length (buttons gui') = Z.to_nat (GameConfig.rows (cfg g)) ∧
    ∀ r c, in_bounds (cfg g) r c = true →
      ∃ btn, button_at (buttons gui') r c = Some btn ∧
             btn !! "text" = Some blank ∧ btn !! "state" = Some "normal" ∧
             btn !! "relief" = Some "raised".
Proof.
  destruct (new_game_spec rng gui)
    as (g & gui' & Hinit & Hnew & Hg & Hs & Hf & Hst & Hl & Hd & Hdl & Hshown).
  destruct (level_config_preset (level_var gui)) as (lvl & _ & Hpre & Hin & Hout).
  assert (Hfresh : g = Build_Minesweeper
                         (default DIFFICULTIES_1 (DIFFICULTIES (level_var gui)))
                         ∅ (zero_grid (default DIFFICULTIES_1 (DIFFICULTIES (level_var gui))))
                         ∅ ∅ false false false).
  { unfold __init__ in Hinit. case_bool_decide; [done |]. by injection Hinit as <-. }
  assert (Hc : cfg g = default DIFFICULTIES_1 (DIFFICULTIES (level_var gui)))
    by (by rewrite Hfresh).
  exists g, gui'. split_and!; try done.
  - intros Hlvl. rewrite Hc, <- Hpre. by rewrite (Hin Hlvl).
  - intros Hlvl. rewrite Hc. pose proof (Hout Hlvl) as ->.
    cbn in Hpre. by injection Hpre as <-.
  - by rewrite Hc.
  - rewrite Hf, Hfresh. reflexivity.
  - apply Hs.
  - intros r c Hb. destruct (Hshown (r, c) Hb) as (btn & Hbtn & Ht & Hs' & Hr).
    exists btn. split; [done |]. revert Ht Hs' Hr. unfold live_text.
    rewrite Hfresh. cbn [revealed flags].
    rewrite !bool_decide_eq_false_2 by apply not_elem_of_empty. done.
Qed.

(** ** X14, X15: what every session keeps

    X14: no session raises: after [__init__] and any gestures whatever, at any
    coordinates and levels, every handler has returned; the shell holds an
    engine that is a reachable state of one of the five presets, and the grid
    of buttons has a row for each row of the board and a button for each
    column. *)
Theorem session_never_raises (rng : Rng) (gestures : list gesture) :
  ∃ gui rng' g lvl,
    session rng gestures = Ok gui ∧ game gui = Some (rng', g) ∧
    reachable rng' g ∧ 1 ≤ lvl ≤ 5 ∧ DIFFICULTIES lvl = Some (cfg g) ∧
    length (buttons gui) = Z.to_nat (GameConfig.rows (cfg g)) ∧
    Forall (λ row, length row = Z.to_nat (GameConfig.cols (cfg g))) (buttons gui).
Proof.
  destruct (session_inv rng gestures)
    as (gui & Hs & rng' & g & Hg & Hr & (lvl & Hl & Hpre) & [Hlen Hrows] & _).
  remember (session rng gestures) as m eqn:Em in *; clear Em.
  exists gui, rng', g, lvl.
  split; [exact Hs |]. split; [exact Hg |]. split; [exact Hr |]. split; [exact Hl |].
  split; [exact Hpre |]. split; [exact Hlen | exact Hrows].
Qed.

(** X15: after every session the counter shows the number of flags of the
    engine out of its mines, and while the game is live the button of every
    cell of the board shows the engine: a hidden cell is enabled and raised
    and shows its flag or nothing, a revealed cell is disabled and sunken and
    shows its count, nothing for zero; no button shows a bomb. *)
Theorem live_board_shows_engine (rng : Rng) (gestures : list gesture) :
  ∃ gui rng' g,
    session rng gestures = Ok gui ∧ game gui = Some (rng', g) ∧
    flags_var gui = flags_label g ∧
    (game_over g = false →
     ∀ cell, in_bounds (cfg g) cell.1 cell.2 = true →
       ∃ btn, button_at (buttons gui) cell.1 cell.2 = Some btn ∧
              shown_live g cell btn ∧ btn !! "text" ≠ Some bomb).
Proof.
  destruct (session_inv rng gestures)
    as (gui & Hs & rng' & g & Hg & Hr & _ & _ & Hf & Hshown).
  remember (session rng gestures) as m eqn:Em in *; clear Em.
  exists gui, rng', g. split_and!; try done. intros Hgo cell Hb.
  destruct (Hshown cell Hb) as (btn & Hbtn & [Hlive | [Hover _]]); [| congruence].
  exists btn. split_and!; try done. destruct Hlive as (-> & _).
  intros [= Hbomb]. by apply (live_text_not_bomb g cell (reachable_inv _ _ Hr) Hgo).
Qed.

(** ** X16: the end of the game

    X16: a gesture adds a dialog exactly when it takes the game from live to
    over, and then one dialog, with the message of the outcome.  That gesture
    is a left click whose [reveal] ended the game; after it the status line is
    the message and the button of every cell of the board is disabled, sunken
    and shows what the cell holds: a bomb on every mine, the count elsewhere.
    On a game that is over a click, left or right, leaves the shell as it
    is. *)
Theorem game_over_dialog_once (rng : Rng) (gestures : list gesture) (a : gesture) :
  ∃ gui gui' rng1 g rng2 g',
    session rng gestures = Ok gui ∧ handle gui a = Ok gui' ∧
    game gui = Some (rng1, g) ∧ game gui' = Some (rng2, g') ∧
    dialogs gui'
    = (if negb (game_over g) && game_over g'
       then [("Game Over", end_message g')] else []) ++ dialogs gui ∧
    (game_over g = false → game_over g' = true →
     (∃ r c, a = LeftClick r c ∧ reveal rng1 g r c = Ok g') ∧
     status_var gui' = end_message g' ∧
     ∀ cell, in_bounds (cfg g') cell.1 cell.2 = true →
       ∃ btn, button_at (buttons gui') cell.1 cell.2 = Some btn ∧
              shown_end g' cell btn) ∧
    (game_over g = true →
     (∃ r c, a = LeftClick r c ∨ a = RightClick r c) → gui' = gui).
Proof.
  destruct (session_inv rng gestures)
    as (gui & Hs & rng1 & g & Hg & Hr & (lvl & Hl & Hpre) & Hbs & Hf & Hshown).
  remember (session rng gestures) as m eqn:Em in *; clear Em.
  pose proof (reachable_inv _ _ Hr) as Hinv.
  destruct (DIFFICULTIES_valid _ _ Hpre) as (Hwf & [Hm _] & _).
  exists gui. destruct a as [rng' | r c | r c | on | l]; cbn [handle].
  - destruct (new_game_spec rng' gui)
      as (g0 & gui' & Hinit & Hnew & Hg' & _ & _ & _ & _ & _ & Hd & _).
    assert (Hgo0 : game_over g0 = false).
    { unfold __init__ in Hinit. case_bool_decide; [done |]. by injection Hinit as <-. }
    exists gui', rng1, g, rng', g0. rewrite Hgo0, andb_false_r.
    split_and!; try done. by intros _ (r & c & [? | ?]).
  - destruct (game_over g) eqn:Hgo.
    + exists gui, rng1, g, rng1, g. rewrite Hgo. cbn [negb andb app].
      split_and!; try done. unfold on_left_click. by rewrite Hg, Hgo.
    + destruct (on_left_click_spec gui rng1 g r c)
        as (g' & gui' & Hrev & Hclick & Hinv' & Hc & Hre); try done.
      destruct Hre as (Hg' & _ & _ & _ & _ & Hlive & Hover).
      exists gui', rng1, g, rng1, g'. rewrite Hgo. cbn [negb andb].
      split_and!; try done.
      * destruct (game_over g') eqn:Hgo'; cbn [app].
        -- by destruct (Hover eq_refl) as (-> & _).
        -- by destruct (Hlive eq_refl) as (-> & _).
      * intros _ Hgo'. destruct (Hover Hgo') as (_ & Hst & Hend).
        split_and!; [by exists r, c | done | done].
  - destruct (game_over g) eqn:Hgo.
    + exists gui, rng1, g, rng1, g. rewrite Hgo. cbn [negb andb app].
      split_and!; try done. unfold on_right_click. by rewrite Hg, Hgo.
    + destruct (on_right_click_spec gui rng1 g r c) as (gui' & Hclick & Hre); try done.
      destruct (toggle_flag_fields g r c) as (_ & _ & _ & _ & _ & Hgo' & _).
      destruct Hre as (Hg' & _ & _ & _ & _ & Hlive & _).
      exists gui', rng1, g, rng1, (toggle_flag g r c).
      rewrite Hgo', Hgo. cbn [negb andb app]. split_and!; try done.
      assert (Hgt : game_over (toggle_flag g r c) = false) by congruence.
      by destruct (Hlive Hgt) as (-> & _).
  - unfold apply_theme.
    destruct (_refresh_board_spec (set_dark_var gui on) rng1 g true)
      as (bs & Hre & _); try done.
    eexists _, rng1, g, rng1, g. rewrite andb_negb_l.
    split_and!; try done; [intros; congruence | by intros _ (r & c & [? | ?])].
  - eexists _, rng1, g, rng1, g. rewrite andb_negb_l.
    split_and!; try done; [intros; congruence | by intros _ (r & c & [? | ?])].
Qed.

(** ** X17: switching the theme

    X17: switching dark mode on or off after any session keeps the engine,
    the status line, the counter and the dialogs, and redraws the button of
    every cell in the colours of the chosen theme by the rule of a live game,
    whether the game is over or not: a cell that is not revealed is drawn
    hidden, enabled and without bomb, also a mine that [_end_game] had
    shown. *)
Theorem dark_mode_redraws_live (rng : Rng) (gestures : list gesture) (on : bool) :
  ∃ gui gui' rng' g,
    session rng gestures = Ok gui ∧ game gui = Some (rng', g) ∧
    handle gui (DarkMode on) = Ok gui' ∧
    game gui' = Some (rng', g) ∧ dark_var gui' = on ∧
    status_var gui' = status_var gui ∧ dialogs gui' = dialogs gui ∧
    flags_var gui' = flags_var gui ∧
    ∀ cell, in_bounds (cfg g) cell.1 cell.2 = true →
      ∃ btn, button_at (buttons gui') cell.1 cell.2 = Some btn ∧
             shown_live g cell btn ∧
             shown_theme (if on then THEME_DARK else THEME_LIGHT) g cell btn ∧
             (cell ∉ revealed g →
              btn !! "text" ≠ Some bomb ∧ btn !! "state" = Some "normal").
Proof.
  destruct (session_inv rng gestures)
    as (gui & Hs & rng' & g & Hg & Hr & (lvl & Hl & Hpre) & Hbs & Hf & Hshown).
  remember (session rng gestures) as m eqn:Em in *; clear Em.
  pose proof (reachable_inv _ _ Hr) as Hinv.
  destruct (DIFFICULTIES_valid _ _ Hpre) as (Hwf & _).
  cbn [handle]. unfold apply_theme.
  destruct (_refresh_board_spec (set_dark_var gui on) rng' g true)
    as (bs & Hre & _ & Hget); try done.
  eexists gui, _, rng', g. split_and!; try done.
  intros cell Hb. destruct (Hget cell Hb) as (b0 & _ & Hbtn). cbn [buttons set_buttons].
  eexists. split; [exact Hbtn |].
  pose proof (refresh_view_shown (theme (set_dark_var gui on)) g cell b0 Hinv Hb)
    as Hlive.
  split_and!; [done | apply refresh_view_theme |].
  intros Hnr. destruct Hlive as (Ht & Hst & _). split.
  - rewrite Ht. unfold live_text. rewrite bool_decide_eq_false_2 by done.
    intros [= Hbomb]. revert Hbomb.
    destruct (bool_decide (cell ∈ flags g)); by vm_compute.
  - rewrite Hst. by rewrite bool_decide_eq_false_2 by done.
Qed.

(** Two sessions on the first preset.  Under [rng_take] the first click wins.
    Under [seed_corner] a cell is flagged after the first click and the click
    on the mine [(1, 3)] loses: every mine shows a bomb, the flagged one too;
    dark mode then draws the hidden mine [(1, 4)] blank and enabled again and
    the flag back on [(2, 1)], and shows no second dialog. *)
Example won_at_first_click :
  let won := session rng_take [LeftClick 0 0] in
  heard won = [("Game Over", "You won! ")] ∧
  (look won 0 0 "text", look won 1 1 "text", look won 0 2 "text")
  = (Some blank, Some "2", Some bomb) ∧
  heard (session rng_take [LeftClick 0 0; LeftClick 0 2; RightClick 0 3]) = heard won.
Proof. vm_compute. by split_and!. Qed.

Example lost_then_dark_mode :
  let lost := session (rng_seeded seed_corner)
                [LeftClick 0 0; RightClick 2 1; LeftClick 1 3] in
  let dark := session (rng_seeded seed_corner)
                [LeftClick 0 0; RightClick 2 1; LeftClick 1 3; DarkMode true] in
  heard lost = [("Game Over", "Boom! You hit a mine 💥")] ∧
  heard dark = heard lost ∧
  (look lost 1 4 "text", look lost 1 4 "state") = (Some bomb, Some "disabled") ∧
  (look dark 1 4 "text", look dark 1 4 "state") = (Some blank, Some "normal") ∧
  (look lost 2 1 "text", look dark 2 1 "text") = (Some bomb, Some flag) ∧
  (look lost 1 3 "text", look dark 1 3 "text") = (Some bomb, Some bomb).
Proof. vm_compute. by split_and!. Qed.
